(** * HelenOS driver fragments: interrupt pseudocode and its drivers

    A shallow embedding of
      - kernel/generic/include/macros.h     ([overlaps]),
      - kbd/arch/mips32/src/kbd.c           (msim keyboard),
      - uspace/drv/audio/hdaudio/hdaudio.c  (HD-Audio driver),
      - uspace/drv/rootpc/rootpc.c          (PC platform driver),
    together with the interpreter of interrupt pseudocode, which lives in
    the kernel and is described by the specification only. *)

From Stdlib Require Import ZArith Znumtheory Lia List Ascii String Bool.
From stdpp Require Import base option list gmap strings.
Import ListNotations.

Local Open Scope Z_scope.

(* ===================================================================== *)
(** ** kernel/generic/include/macros.h *)
(* ===================================================================== *)

Module Macros.
Section Word.

(** Width in bits of [uintptr_t] and [size_t] (arch/types.h). *)
Variable w : Z.

(** Arithmetic on [uintptr_t] wraps around at [2 ^ w]. *)
Definition wrap (x : Z) : Z := x mod 2 ^ w.

(** [static inline int overlaps(uintptr_t s1, size_t sz1,
                                uintptr_t s2, size_t sz2)] *)
Definition overlaps (s1 sz1 s2 sz2 : Z) : Z :=
  let e1 := wrap (s1 + sz1) in
  let e2 := wrap (s2 + sz2) in
  if (s1 <? e2) && (s2 <? e1) then 1 else 0.

(** A character constant, as the integer the compiler makes of it. *)
Definition chr (c : Ascii.ascii) : Z := Z.of_N (Ascii.N_of_ascii c).

(** [#define isdigit(d)  (((d) >= '0') && ((d) <= '9'))] *)
Definition isdigit (d : Z) : bool :=
  (d >=? chr "0"%char) && (d <=? chr "9"%char).

(** [#define islower(c)  (((c) >= 'a') && ((c) <= 'z'))] *)
Definition islower (c : Z) : bool :=
  (c >=? chr "a"%char) && (c <=? chr "z"%char).

(** [#define isupper(c)  (((c) >= 'A') && ((c) <= 'Z'))] *)
Definition isupper (c : Z) : bool :=
  (c >=? chr "A"%char) && (c <=? chr "Z"%char).

(** [#define isspace(c)
      (((c) == ' ') || ((c) == '\t') || ((c) == '\n') || ((c) == '\r'))];
    the three escapes are the characters 9, 10 and 13. *)
Definition isspace (c : Z) : bool :=
  (c =? chr " "%char) || (c =? chr "009"%char) ||
  (c =? chr "010"%char) || (c =? chr "013"%char).

(** [#define min(a, b)  ((a) < (b) ? (a) : (b))], on operands of one
    integer type. *)
Definition min (a b : Z) : Z := if a <? b then a else b.

(** [#define max(a, b)  ((a) > (b) ? (a) : (b))] *)
Definition max (a b : Z) : Z := if a >? b then a else b.

(** [#define min3(a, b, c)  ((a) < (b) ? (min(a, c)) : (min(b, c)))] *)
Definition min3 (a b c : Z) : Z := if a <? b then min a c else min b c.

(** [#define max3(a, b, c)  ((a) > (b) ? (max(a, c)) : (max(b, c)))] *)
Definition max3 (a b c : Z) : Z := if a >? b then max a c else max b c.

(** [#define SIZE2KB(size)  ((size) >> 10)] and
    [#define SIZE2MB(size)  ((size) >> 20)], on a [size_t]. *)
Definition SIZE2KB (size : Z) : Z := Z.shiftr size 10.
Definition SIZE2MB (size : Z) : Z := Z.shiftr size 20.

(** [#define KB2SIZE(kb)  ((kb) << 10)] and
    [#define MB2SIZE(mb)  ((mb) << 20)], on a [size_t]: the bits shifted
    out at the top are lost. *)
Definition KB2SIZE (kb : Z) : Z := wrap (Z.shiftl kb 10).
Definition MB2SIZE (mb : Z) : Z := wrap (Z.shiftl mb 20).

(** [#define RANDI(seed)], on a seed of the machine word's width (the
    comment in the source has the modulus as 2^32 or 2^64): the seed is
    replaced by the next one, which is also the value of the expression.
    The pair is (value, new seed). *)
Definition RANDI (seed : Z) : Z * Z :=
  let seed' := wrap (1103515245 * seed + 12345) in
  (seed', seed').

End Word.
End Macros.

(* ===================================================================== *)
(** ** Interrupt pseudocode: the data the drivers build *)
(* ===================================================================== *)

(** The command codes the drivers under study use.  The [enum] itself is
    declared in a kernel header outside the sources at hand; the
    constructors are the names that occur in kbd.c and hdaudio.c. *)
Inductive irq_cmd_type : Type :=
| CMD_MEM_READ_1
| CMD_PIO_READ_8
| CMD_PIO_WRITE_8
| CMD_AND
| CMD_PREDICATE
| CMD_ACCEPT.

(** [irq_cmd_t], with the fields the designated initialisers of hdaudio.c
    name.  A field left out of an initialiser is zero, as in C. *)
Record irq_cmd_t : Type := mk_irq_cmd {
  cmd : irq_cmd_type;
  addr : Z;
  value : Z;
  srcarg : nat;
  dstarg : nat
}.

(** [irq_pio_range_t] *)
Record irq_pio_range_t : Type := mk_irq_pio_range {
  base : Z;
  size : Z
}.

(** [irq_code_t].  The two arrays are held by pointer in C; here the record
    carries the arrays' contents at the moment it is looked at. *)
Record irq_code_t : Type := mk_irq_code {
  rangecount : nat;
  ranges : list irq_pio_range_t;
  cmdcount : nat;
  cmds : list irq_cmd_t
}.

Definition NULL : Z := 0.

(** [BIT_V(uint8_t, n)] of bitops.h: the byte with only bit [n] set. *)
Definition BIT_V_uint8 (n : Z) : Z := Z.land (Z.shiftl 1 n) 255.

(* ===================================================================== *)
(** ** The interpreter of interrupt pseudocode *)
(* ===================================================================== *)

Module Interp.

Inductive Verdict : Type := Claimed | NotClaimed.

(** What a [WRITE] stores: an immediate or the content of a scratch slot. *)
Inductive operand : Type :=
| Imm (v : Z)
| Scratch (i : nat).

(** Modelled from the spec: the command vocabulary of the kernel's
    interpreter, which is not among the sources.  Section 3 of the
    specification gives it as a tagged variant; widths are in bytes and
    addresses are already resolved. *)
Inductive Command : Type :=
| READ (width : Z) (a : Z) (dst : nat)
| WRITE (width : Z) (a : Z) (src : operand)
| AND (src : nat) (mask : Z) (dst : nat)
| PREDICATE (src : nat) (expected : Z)
| ACCEPT
| DECLINE.

(** Modelled from the spec: the register access primitive (section 4.1),
    one bus access of a fixed width.  The mock register store maps an
    address to the value held there; an address never written reads 0. *)
Definition fixed_width (width v : Z) : Z := v mod 2 ^ (8 * width).

Definition read (width a : Z) (m : gmap Z Z) : Z :=
  fixed_width width (default 0 (m !! a)).

Definition write (width a v : Z) (m : gmap Z Z) : gmap Z Z :=
  <[a := fixed_width width v]> m.

(** One bus write, as a mock register observes it. *)
Record bus_write : Type := mk_bus_write {
  bw_width : Z;
  bw_addr : Z;
  bw_value : Z
}.

(** The interpreter's state: the index of the next command, the scratch
    register file (zeroed at entry), the registers, and what an observer
    has seen so far. *)
Record istate : Type := mk_istate {
  pc : nat;
  scratch : gmap nat Z;
  mem : gmap Z Z;
  bus_writes : list bus_write;
  scratch_trace : list (nat * Z);
  executed : list nat
}.

Definition initial (m : gmap Z Z) : istate :=
  mk_istate 0 ∅ m [] [] [].

Definition get_scratch (i : nat) (s : istate) : Z :=
  default 0 (scratch s !! i).

Definition set_scratch (i : nat) (v : Z) (s : istate) : istate :=
  mk_istate (pc s) (<[i := v]> (scratch s)) (mem s) (bus_writes s)
    (scratch_trace s ++ [(i, v)]) (executed s).

Definition bus_store (width a v : Z) (s : istate) : istate :=
  mk_istate (pc s) (scratch s) (write width a v (mem s))
    (bus_writes s ++ [mk_bus_write width a (fixed_width width v)])
    (scratch_trace s) (executed s).

Definition operand_value (o : operand) (s : istate) : Z :=
  match o with
  | Imm v => v
  | Scratch i => get_scratch i s
  end.

(** The command at [pc] has been dispatched. *)
Definition fetched (s : istate) : istate :=
  mk_istate (pc s) (scratch s) (mem s) (bus_writes s) (scratch_trace s)
    (executed s ++ [pc s]).

(** The loop moves on to the next array element. *)
Definition advance (s : istate) : istate :=
  mk_istate (S (pc s)) (scratch s) (mem s) (bus_writes s)
    (scratch_trace s) (executed s).

Inductive step_result : Type :=
| Next (s : istate)
| Halt (v : Verdict) (s : istate).

(** Modelled from the spec: what each command does (section 4.3 of the
    specification; the kernel's dispatch switch is not among the
    sources). *)
Definition exec_cmd (c : Command) (s : istate) : step_result :=
  match c with
  | READ width a dst => Next (set_scratch dst (read width a (mem s)) s)
  | WRITE width a src => Next (bus_store width a (operand_value src s) s)
  | AND src mask dst => Next (set_scratch dst (Z.land (get_scratch src s) mask) s)
  | PREDICATE src expected =>
      if get_scratch src s =? expected then Next s else Halt NotClaimed s
  | ACCEPT => Halt Claimed s
  | DECLINE => Halt NotClaimed s
  end.

(** How a run ends: with a verdict, by running off the end of the list
    (which validation is meant to exclude), or because the fuel given to
    the loop below was used up with commands still to go. *)
Inductive outcome : Type :=
| Finished (v : Verdict)
| Exhausted
| OutOfFuel.

(** Modelled from the spec: the interpreter's loop (section 4.3), one
    pass over the command array from index 0. *)
Fixpoint run (fuel : nat) (prog : list Command) (s : istate)
  : outcome * istate :=
  match prog !! pc s with
  | None => (Exhausted, s)
  | Some c =>
      match fuel with
      | O => (OutOfFuel, s)
      | S fuel' =>
          match exec_cmd c (fetched s) with
          | Halt v s' => (Finished v, s')
          | Next s' => run fuel' prog (advance s')
          end
      end
  end.

(** Modelled from the spec: one pass over a list; as many iterations as
    there are commands are all the loop is given. *)
Definition interpret (prog : list Command) (m : gmap Z Z)
  : outcome * istate :=
  run (length prog) prog (initial m).







Section Encoding.

(** What value the interpreter takes a [CMD_PREDICATE] record to expect.
    The sources do not say (the dispatch switch is not among them) and
    neither does the specification: it has no struct encoding, and it
    renders the HD-Audio record, whose [.value] is 2, as
    [PREDICATE(s1, 1)].  So the reading is a parameter of the model. *)
Variable predicate_expects : irq_cmd_t → Z.

(** Modelled from the spec: how the interpreter reads one [irq_cmd_t]
    (its dispatch switch is not among the sources).  The 8-bit port read
    and write and the 1-byte memory read are accesses of width 1;
    [srcarg] and [dstarg] are scratch slots, [value] is the mask of an
    [AND] and the immediate of a write. *)
Definition decode (c : irq_cmd_t) : Command :=
  match cmd c with
  | CMD_MEM_READ_1 => READ 1 (addr c) (dstarg c)
  | CMD_PIO_READ_8 => READ 1 (addr c) (dstarg c)
  | CMD_PIO_WRITE_8 => WRITE 1 (addr c) (Imm (value c))
  | CMD_AND => AND (srcarg c) (value c) (dstarg c)
  | CMD_PREDICATE => PREDICATE (srcarg c) (predicate_expects c)
  | CMD_ACCEPT => ACCEPT
  end.

(** Modelled from the spec: the commands of a code are the first
    [cmdcount] elements of [cmds]. *)
Definition program (code : irq_code_t) : list Command :=
  take (cmdcount code) (decode <$> cmds code).

(** Modelled from the spec: [execute(list) -> Verdict] of section 4.3. *)
Definition execute (code : irq_code_t) (m : gmap Z Z) : outcome * istate :=
  interpret (program code) m.

End Encoding.

(** Modelled from the spec: the terminal commands, and the check that
    registration makes of a list (section 4.2): a path that is not cut
    short by a [PREDICATE] must meet [ACCEPT] or [DECLINE]. *)
Definition is_terminal (c : Command) : bool :=
  match c with
  | ACCEPT | DECLINE => true
  | _ => false
  end.

Definition ends_in_terminal (prog : list Command) : bool :=
  existsb is_terminal prog.

(** The shape [[READ, AND(mask), PREDICATE(expected=X), WRITE, ACCEPT]]
    of the specification's short-circuit property: the [AND] masks what
    the [READ] fetched and the [PREDICATE] tests the masked value. *)
Definition probe_shape (rw ra : Z) (s0 : nat) (mask : Z) (s1 : nat)
    (X : Z) (ww wa : Z) (wsrc : operand) : list Command :=
  [READ rw ra s0; AND s0 mask s1; PREDICATE s1 X; WRITE ww wa wsrc; ACCEPT].

(** The list of the specification's HD-Audio example, for a status
    register at [reg]: READ8(reg) -> s0; AND(s0, 0x01) -> s1;
    PREDICATE(s1, 1); WRITE8(reg, 0x01); ACCEPT. *)
Definition hdaudio_style_example (reg : Z) : list Command :=
  probe_shape 1 reg 0 1 1 1 1 reg (Imm 1).


End Interp.

(* ===================================================================== *)
(** ** Headers that are not among the sources *)
(* ===================================================================== *)

(** errno.h: the error codes are compile-time constants whose values the
    drivers never look at. *)
Class errno_h : Type := {
  EOK : Z;
  ENOMEM : Z;
  EINVAL : Z;
  EIO : Z
}.

(** spec/regs.h of the HD-Audio driver: the size of the register block
    [hda_regs_t] and the offset of its field [rirbsts]. *)
Class hda_regs_h : Type := {
  sizeof_hda_regs_t : Z;
  offsetof_rirbsts : Z
}.

(** Values for worked examples: a set of distinct error codes, and a
    register block of 8192 bytes with [rirbsts] at offset 0x5d. *)
Definition example_errno : errno_h :=
  {| EOK := 0; ENOMEM := -2; EINVAL := -15; EIO := -265 |}.

Definition example_hda_regs : hda_regs_h :=
  {| sizeof_hda_regs_t := 8192; offsetof_rirbsts := 0x5d |}.

(** Modelled from the spec: the bit number [rirbsts_intfl] of
    spec/regs.h, which is not among the sources.  The specification's
    HD-Audio example masks the status register with 0x01, that is bit 0. *)
Definition rirbsts_intfl : Z := 0.

(* ===================================================================== *)
(** ** kbd/arch/mips32/src/kbd.c *)
(* ===================================================================== *)

Module Kbd.

(** [irq_cmd_t msim_cmds[1]]: one command, the rest of the struct zero. *)
Definition msim_cmds : list irq_cmd_t :=
  [ {| cmd := CMD_MEM_READ_1; addr := 0xB0000000; value := 0;
       srcarg := 0; dstarg := 0 |} ].

(** [irq_code_t msim_kbd = { 1, msim_cmds }]: the code predates register
    ranges and has none. *)
Definition msim_kbd : irq_code_t :=
  mk_irq_code 0 [] 1 msim_cmds.

(** What the keyboard code asks of the rest of the system. *)
Inductive event : Type :=
| Ev_ipc_register_irq (irq : Z) (code : irq_code_t)
| Ev_key_buffer_push (key : Z).

(** [int kbd_arch_init(void)] *)
Definition kbd_arch_init (tr : list event) : Z * list event :=
  (1, tr ++ [Ev_ipc_register_irq 2 msim_kbd]).

(** [int kbd_arch_process(int scan_code)] *)
Definition kbd_arch_process (scan_code : Z) (tr : list event)
  : Z * list event :=
  (1, tr ++ [Ev_key_buffer_push scan_code]).

Definition is_push (e : event) : bool :=
  match e with
  | Ev_key_buffer_push _ => true
  | _ => false
  end.

End Kbd.

(* ===================================================================== *)
(** ** uspace/drv/audio/hdaudio/hdaudio.c *)
(* ===================================================================== *)

Module Hdaudio.

Inductive log_level : Type := LVL_ERROR | LVL_NOTE | LVL_DEBUG.

(** One parsed memory range: [RNGABS] is its absolute address and
    [RNGSZ] its size. *)
Record addr_range_t : Type := mk_addr_range {
  RNGABS : Z;
  RNGSZ : Z
}.

(** [hw_res_list_parsed_t], as far as the driver reads it. *)
Record hw_res_list_parsed_t : Type := mk_hw_res {
  mem_ranges : list addr_range_t;
  irqs : list Z
}.

(** [hda_t], the soft state of one device.  Pointers are integers and
    the null pointer is 0. *)
Record hda_t : Type := mk_hda {
  parent_sess : Z;
  rwbase : Z;
  rwsize : Z;
  regs : Z;
  ctl : Z;
  fun_a : Z
}.

(** Freshly allocated soft state. *)
Definition hda_zero : hda_t := mk_hda NULL 0 0 NULL NULL NULL.

(** What the driver does to the world outside its own variables, and
    every store into its global arrays. *)
Inductive event : Type :=
| Ev_ddf_msg (lvl : log_level) (fmt : string)
| Ev_ddf_dev_data_alloc (dev : Z)
| Ev_ddf_dev_parent_sess_create (dev : Z)
| Ev_hw_res_get_list_parsed (sess : Z)
| Ev_pio_enable (pio_base pio_size : Z)
| Ev_store_range_base (i : nat) (v : Z)
| Ev_store_cmd_addr (i : nat) (v : Z)
| Ev_register_interrupt_handler (dev : Z) (irq : Z) (code : irq_code_t)
| Ev_hda_ctl_init (dev : Z)
| Ev_hda_ctl_fini (c : Z)
| Ev_hda_ctl_interrupt (c : Z)
| Ev_ddf_fun_create (dev : Z) (name : string)
| Ev_ddf_fun_bind (f : Z)
| Ev_ddf_fun_unbind (f : Z)
| Ev_ddf_fun_online (f : Z)
| Ev_ddf_fun_offline (f : Z)
| Ev_ddf_fun_destroy (f : Z)
| Ev_ddf_fun_add_to_category (f : Z) (cat : string).

(** The driver's state: its two global arrays, the soft state of each
    device, and the events so far.  [hdaudio_irq_code] points at the two
    arrays and is read off them below. *)
Record drv_state : Type := mk_drv {
  hdaudio_irq_pio_ranges : list irq_pio_range_t;
  hdaudio_irq_commands : list irq_cmd_t;
  dev_data : gmap Z hda_t;
  events : list event
}.

(** The static initialisers. *)
Definition hdaudio_irq_pio_ranges_init : list irq_pio_range_t :=
  [ {| base := 0; size := 8192 |} ].

Definition hdaudio_irq_commands_init : list irq_cmd_t :=
  [ {| cmd := CMD_PIO_READ_8; addr := NULL; value := 0;
       srcarg := 0; dstarg := 2 |};
    {| cmd := CMD_AND; addr := 0; value := BIT_V_uint8 rirbsts_intfl;
       srcarg := 2; dstarg := 3 |};
    {| cmd := CMD_PREDICATE; addr := 0; value := 2;
       srcarg := 3; dstarg := 0 |};
    {| cmd := CMD_PIO_WRITE_8; addr := NULL;
       value := BIT_V_uint8 rirbsts_intfl; srcarg := 0; dstarg := 0 |};
    {| cmd := CMD_ACCEPT; addr := 0; value := 0; srcarg := 0; dstarg := 0 |} ].

Definition drv_init : drv_state :=
  mk_drv hdaudio_irq_pio_ranges_init hdaudio_irq_commands_init ∅ [].

(** [irq_code_t hdaudio_irq_code]: the counts are the arrays' declared
    lengths ([sizeof] quotients), the arrays are the globals. *)
Definition hdaudio_irq_code (st : drv_state) : irq_code_t :=
  mk_irq_code 1 (hdaudio_irq_pio_ranges st) 5 (hdaudio_irq_commands st).

(** *** A state monad with a jump to the [error:] label *)

Definition M (A : Type) : Type := drv_state → (A + Z) * drv_state.

#[global] Instance hda_ret : MRet M := λ A a st, (inl a, st).

#[global] Instance hda_bind : MBind M := λ A B k m st,
  match m st with
  | (inl a, st') => k a st'
  | (inr rc, st') => (inr rc, st')
  end.

Definition ret {A : Type} (a : A) : M A := mret a.

(** [rc = ...; goto error;] *)
Definition goto_error {A : Type} (rc : Z) : M A := λ st, (inr rc, st).

Definition emit (e : event) : M unit :=
  λ st, (inl tt, mk_drv (hdaudio_irq_pio_ranges st) (hdaudio_irq_commands st)
                    (dev_data st) (events st ++ [e])).

Definition ddf_msg (lvl : log_level) (fmt : string) : M unit :=
  emit (Ev_ddf_msg lvl fmt).

Definition when (b : bool) (m : M unit) : M unit :=
  if b then m else ret tt.

(** The soft state of [dev]; a device without one reads as zeroes. *)
Definition hda_of (dev : Z) (st : drv_state) : hda_t :=
  default hda_zero (dev_data st !! dev).

Definition get_hda (dev : Z) : M hda_t := λ st, (inl (hda_of dev st), st).

Definition set_hda (dev : Z) (h : hda_t) : M unit :=
  λ st, (inl tt, mk_drv (hdaudio_irq_pio_ranges st) (hdaudio_irq_commands st)
                    (<[dev := h]> (dev_data st)) (events st)).

(** [hdaudio_irq_pio_ranges[i].base = v] *)
Definition set_range_base (i : nat) (v : Z) : M unit :=
  λ st, (inl tt,
      mk_drv (alter (λ r, mk_irq_pio_range v (size r)) i (hdaudio_irq_pio_ranges st))
             (hdaudio_irq_commands st) (dev_data st) (events st)).

Definition store_range_base (i : nat) (v : Z) : M unit :=
  set_range_base i v ;; emit (Ev_store_range_base i v).

(** [hdaudio_irq_commands[i].addr = v] *)
Definition set_cmd_addr (i : nat) (v : Z) : M unit :=
  λ st, (inl tt,
      mk_drv (hdaudio_irq_pio_ranges st)
             (alter (λ c, mk_irq_cmd (cmd c) v (value c) (srcarg c) (dstarg c)) i
                    (hdaudio_irq_commands st))
             (dev_data st) (events st)).

Definition store_cmd_addr (i : nat) (v : Z) : M unit :=
  set_cmd_addr i v ;; emit (Ev_store_cmd_addr i v).

(** [&hdaudio_irq_code], as the callee sees it at the call. *)
Definition get_irq_code : M irq_code_t :=
  λ st, (inl (hdaudio_irq_code st), st).

(** What the functions called by [hda_dev_add] give back.  They are not
    part of this file, so their results are inputs of the model. *)
Record add_env : Type := mk_add_env {
  env_dev_data_alloc : bool;
  env_parent_sess : Z;
  env_hw_res_rc : Z;
  env_hw_res : hw_res_list_parsed_t;
  env_pio_enable_rc : Z;
  env_pio_regs : Z;
  env_register_rc : Z;
  env_hda_ctl_init : Z;
  env_hda_ctl_field : Z;
  env_fun_create : Z;
  env_fun_bind_rc : Z
}.

Section Driver.

Context {E : errno_h} {R : hda_regs_h}.

(** Width in bits of [uintptr_t]. *)
Variable w : Z.

(** [(uintptr_t) x] *)
Definition to_uintptr (x : Z) : Z := x mod 2 ^ w.

(** [&rphys->rirbsts], cast to a pointer to void: the address of the
    field, as the pointer the machine holds, a word of [w] bits. *)
Definition field_rirbsts (rphys : Z) : Z :=
  to_uintptr (rphys + offsetof_rirbsts).

(** The body of [hda_dev_add] up to [return EOK;].  A jump to
    [error:] carries the value [rc] has at the jump. *)
Definition hda_dev_add_body (env : add_env) (dev : Z) : M unit :=
  ddf_msg LVL_NOTE "hda_dev_add()" ;;
  emit (Ev_ddf_dev_data_alloc dev) ;;
  (if env_dev_data_alloc env then set_hda dev hda_zero
   else ddf_msg LVL_ERROR "Failed allocating soft state.\n" ;;
        goto_error ENOMEM) ;;
  ddf_msg LVL_NOTE "create parent sess" ;;
  emit (Ev_ddf_dev_parent_sess_create dev) ;;
  set_hda dev (mk_hda (env_parent_sess env) 0 0 NULL NULL NULL) ;;
  when (env_parent_sess env =? NULL)
    (ddf_msg LVL_ERROR "Failed connecting parent driver.\n" ;;
     goto_error ENOMEM) ;;
  ddf_msg LVL_NOTE "get HW res list" ;;
  emit (Ev_hw_res_get_list_parsed (env_parent_sess env)) ;;
  let rc := env_hw_res_rc env in
  let res := env_hw_res env in
  when (negb (rc =? EOK))
    (ddf_msg LVL_ERROR "Failed getting resource list.\n" ;;
     goto_error rc) ;;
  when (negb (length (mem_ranges res) =? 1)%nat)
    (ddf_msg LVL_ERROR "Expected exactly one memory range.\n" ;;
     goto_error EINVAL) ;;
  let range0 := default (mk_addr_range 0 0) (mem_ranges res !! 0%nat) in
  hda ← get_hda dev;
  set_hda dev (mk_hda (parent_sess hda) (RNGABS range0) (RNGSZ range0)
                 (regs hda) (ctl hda) (fun_a hda)) ;;
  hda ← get_hda dev;
  ddf_msg LVL_NOTE "hda reg base: %PRIx64" ;;
  when (rwsize hda <? sizeof_hda_regs_t)
    (ddf_msg LVL_ERROR "Memory range is too small." ;;
     goto_error EINVAL) ;;
  ddf_msg LVL_NOTE "enable PIO" ;;
  emit (Ev_pio_enable (to_uintptr (rwbase hda)) (rwsize hda)) ;;
  let rc := env_pio_enable_rc env in
  when (negb (rc =? EOK))
    (ddf_msg LVL_ERROR "Error enabling PIO range." ;;
     goto_error rc) ;;
  set_hda dev (mk_hda (parent_sess hda) (rwbase hda) (rwsize hda)
                 (env_pio_regs env) (ctl hda) (fun_a hda)) ;;
  hda ← get_hda dev;
  ddf_msg LVL_NOTE "IRQs: %d" ;;
  when (negb (length (irqs res) =? 1)%nat)
    (ddf_msg LVL_ERROR "Unexpected IRQ count %d (!= 1)" ;;
     goto_error rc) ;;
  ddf_msg LVL_NOTE "interrupt no: %d" ;;
  let irq0 := default 0 (irqs res !! 0%nat) in
  let rphys := to_uintptr (rwbase hda) in
  store_range_base 0 (to_uintptr (rwbase hda)) ;;
  store_cmd_addr 0 (field_rirbsts rphys) ;;
  store_cmd_addr 3 (field_rirbsts rphys) ;;
  ddf_msg LVL_NOTE "range0.base=%x" ;;
  ddf_msg LVL_NOTE "cmd0.addr=%p" ;;
  ddf_msg LVL_NOTE "cmd3.addr=%p" ;;
  code ← get_irq_code;
  emit (Ev_register_interrupt_handler dev irq0 code) ;;
  let rc := env_register_rc env in
  when (negb (rc =? EOK))
    (ddf_msg LVL_ERROR "Failed registering interrupt handler. (%d)" ;;
     goto_error rc) ;;
  emit (Ev_hda_ctl_init dev) ;;
  set_hda dev (mk_hda (parent_sess hda) (rwbase hda) (rwsize hda)
                 (regs hda) (env_hda_ctl_field env) (fun_a hda)) ;;
  hda ← get_hda dev;
  when (env_hda_ctl_init env =? NULL) (goto_error EIO) ;;
  ddf_msg LVL_NOTE "create function" ;;
  emit (Ev_ddf_fun_create dev "a") ;;
  let fun_a' := env_fun_create env in
  when (fun_a' =? NULL)
    (ddf_msg LVL_ERROR "Failed creating function 'a'." ;;
     goto_error ENOMEM) ;;
  set_hda dev (mk_hda (parent_sess hda) (rwbase hda) (rwsize hda)
                 (regs hda) (ctl hda) fun_a') ;;
  emit (Ev_ddf_fun_bind fun_a') ;;
  let rc := env_fun_bind_rc env in
  when (negb (rc =? EOK))
    (ddf_msg LVL_ERROR "Failed binding function 'a'." ;;
     emit (Ev_ddf_fun_destroy fun_a') ;;
     goto_error rc) ;;
  emit (Ev_ddf_fun_add_to_category fun_a' "virtual").

(** The code at the [error:] label. *)
Definition hda_dev_add_error (env : add_env) (dev : Z) (rc : Z) : M Z :=
  hda ← get_hda dev;
  when (env_dev_data_alloc env && negb (ctl hda =? NULL))
    (emit (Ev_hda_ctl_fini (ctl hda))) ;;
  ddf_msg LVL_NOTE "Failing hda_dev_add() -> %d" ;;
  ret rc.

(** [static int hda_dev_add(ddf_dev_t *dev)] *)
Definition hda_dev_add (env : add_env) (dev : Z) (st : drv_state)
  : Z * drv_state :=
  match hda_dev_add_body env dev st with
  | (inl _, st') => (EOK, st')
  | (inr rc, st') =>
      match hda_dev_add_error env dev rc st' with
      | (inl r, st'') => (r, st'')
      | (inr r, st'') => (r, st'')
      end
  end.

(** [static int hda_dev_remove(ddf_dev_t *dev)]; [rc_offline] and
    [rc_unbind] are what [ddf_fun_offline] and [ddf_fun_unbind]
    return. *)
Definition hda_dev_remove (rc_offline rc_unbind : Z) (dev : Z) : M Z :=
  hda ← get_hda dev;
  ddf_msg LVL_DEBUG "hda_dev_remove(%p)" ;;
  if negb (fun_a hda =? NULL) then
    emit (Ev_ddf_fun_offline (fun_a hda)) ;;
    if negb (rc_offline =? EOK) then ret rc_offline
    else
      emit (Ev_ddf_fun_unbind (fun_a hda)) ;;
      if negb (rc_unbind =? EOK) then ret rc_unbind
      else ret EOK
  else ret EOK.

(** [static int hda_dev_gone(ddf_dev_t *dev)] *)
Definition hda_dev_gone (rc_unbind : Z) (dev : Z) : M Z :=
  hda ← get_hda dev;
  ddf_msg LVL_DEBUG "hda_dev_remove(%p)" ;;
  if negb (fun_a hda =? NULL) then
    emit (Ev_ddf_fun_unbind (fun_a hda)) ;;
    if negb (rc_unbind =? EOK) then ret rc_unbind
    else ret EOK
  else ret EOK.

(** [static int hda_fun_online(ddf_fun_t *fun)] *)
Definition hda_fun_online (rc_online : Z) (f : Z) : M Z :=
  ddf_msg LVL_DEBUG "hda_fun_online()" ;;
  emit (Ev_ddf_fun_online f) ;;
  ret rc_online.

(** [static int hda_fun_offline(ddf_fun_t *fun)] *)
Definition hda_fun_offline (rc_offline : Z) (f : Z) : M Z :=
  ddf_msg LVL_DEBUG "hda_fun_offline()" ;;
  emit (Ev_ddf_fun_offline f) ;;
  ret rc_offline.

(** [static void hdaudio_interrupt(ddf_dev_t *dev, ...)] *)
Definition hdaudio_interrupt (dev : Z) : M unit :=
  hda ← get_hda dev;
  ddf_msg LVL_NOTE "## interrupt ##" ;;
  emit (Ev_hda_ctl_interrupt (ctl hda)).

(** The entry points the driver framework and the interrupt dispatch
    call ([driver_ops] and the handler given at registration), each
    with what its callees return. *)
Inductive op : Type :=
| Op_dev_add (env : add_env) (dev : Z)
| Op_dev_remove (rc_offline rc_unbind : Z) (dev : Z)
| Op_dev_gone (rc_unbind : Z) (dev : Z)
| Op_fun_online (rc_online : Z) (f : Z)
| Op_fun_offline (rc_offline : Z) (f : Z)
| Op_interrupt (dev : Z).

Definition run_op (o : op) (st : drv_state) : drv_state :=
  match o with
  | Op_dev_add env dev => snd (hda_dev_add env dev st)
  | Op_dev_remove r1 r2 dev => snd (hda_dev_remove r1 r2 dev st)
  | Op_dev_gone r dev => snd (hda_dev_gone r dev st)
  | Op_fun_online r f => snd (hda_fun_online r f st)
  | Op_fun_offline r f => snd (hda_fun_offline r f st)
  | Op_interrupt dev => snd (hdaudio_interrupt dev st)
  end.

Definition run_ops (os : list op) (st : drv_state) : drv_state :=
  foldl (λ s o, run_op o s) st os.

(** How far a call of [hda_dev_add] gets, in terms of what its callees
    give back: the tests of the function, in its order.  First those up
    to and including [pio_enable]. *)
Definition resources_ok (env : add_env) : bool :=
  env_dev_data_alloc env &&
  negb (env_parent_sess env =? NULL) &&
  (env_hw_res_rc env =? EOK) &&
  (length (mem_ranges (env_hw_res env)) =? 1)%nat &&
  negb (RNGSZ (default (mk_addr_range 0 0)
                 (mem_ranges (env_hw_res env) !! 0%nat))
        <? sizeof_hda_regs_t) &&
  (env_pio_enable_rc env =? EOK).

(** ... then the test of the interrupt count ... *)
Definition reaches_registration (env : add_env) : bool :=
  resources_ok env && (length (irqs (env_hw_res env)) =? 1)%nat.

(** ... then registration, [hda_ctl_init] and [ddf_fun_create] ... *)
Definition reaches_bind (env : add_env) : bool :=
  reaches_registration env &&
  (env_register_rc env =? EOK) &&
  negb (env_hda_ctl_init env =? NULL) &&
  negb (env_fun_create env =? NULL).

(** ... and at last [ddf_fun_bind]. *)
Definition callees_succeed (env : add_env) : bool :=
  reaches_bind env && (env_fun_bind_rc env =? EOK).

End Driver.

(** *** Observations on an event trace *)

Definition is_store (e : event) : bool :=
  match e with
  | Ev_store_range_base _ _ | Ev_store_cmd_addr _ _ => true
  | _ => false
  end.

Definition is_register (e : event) : bool :=
  match e with
  | Ev_register_interrupt_handler _ _ _ => true
  | _ => false
  end.

(** No store into the global arrays follows the first registration. *)
Fixpoint frozen_after_registration (tr : list event) : bool :=
  match tr with
  | [] => true
  | e :: tr' =>
      if is_register e then forallb (λ e', negb (is_store e')) tr'
      else frozen_after_registration tr'
  end.

Definition no_store (tr : list event) : bool :=
  forallb (λ e, negb (is_store e)) tr.

Definition no_register (tr : list event) : bool :=
  forallb (λ e, negb (is_register e)) tr.

(** How many stores into the global arrays a trace holds. *)
Definition count_stores (tr : list event) : nat :=
  length (filter (λ e, is_store e = true) tr).

(** The registrations in a trace: device, interrupt number, and the
    code as it stood at the call. *)
Definition registrations (tr : list event) : list (Z * Z * irq_code_t) :=
  omap (λ e, match e with
             | Ev_register_interrupt_handler d i c => Some (d, i, c)
             | _ => None
             end) tr.

(** The events a step has added to a trace that began as [before]. *)
Definition added (before after : list event) : list event :=
  drop (length before) after.

(** A device whose callees all succeed: one memory range of 16 KiB at
    [membase] and one interrupt [irq]. *)
Definition example_env (membase irq : Z) : add_env :=
  mk_add_env true 0x1000 0 (mk_hw_res [mk_addr_range membase 0x4000] [irq])
    0 0x7f000000 0 0x2000 0x2000 0x3000 0.

Definition is_offline (e : event) : bool :=
  match e with
  | Ev_ddf_fun_offline _ => true
  | _ => false
  end.

Definition is_unbind (e : event) : bool :=
  match e with
  | Ev_ddf_fun_unbind _ => true
  | _ => false
  end.

Definition is_add_to_category (e : event) : bool :=
  match e with
  | Ev_ddf_fun_add_to_category _ _ => true
  | _ => false
  end.

(** The global arrays as the driver can hold them: the initialisers, but
    for the base of the range and the addresses of commands 0 and 3, the
    three places [hda_dev_add] stores into. *)
Definition patched_ranges (b : Z) : list irq_pio_range_t :=
  [ {| base := b; size := 8192 |} ].

Definition patched_commands (a0 a3 : Z) : list irq_cmd_t :=
  [ {| cmd := CMD_PIO_READ_8; addr := a0; value := 0;
       srcarg := 0; dstarg := 2 |};
    {| cmd := CMD_AND; addr := 0; value := BIT_V_uint8 rirbsts_intfl;
       srcarg := 2; dstarg := 3 |};
    {| cmd := CMD_PREDICATE; addr := 0; value := 2;
       srcarg := 3; dstarg := 0 |};
    {| cmd := CMD_PIO_WRITE_8; addr := a3;
       value := BIT_V_uint8 rirbsts_intfl; srcarg := 0; dstarg := 0 |};
    {| cmd := CMD_ACCEPT; addr := 0; value := 0; srcarg := 0; dstarg := 0 |} ].

Definition arrays_patched (st : drv_state) : Prop :=
  ∃ b a0 a3 : Z,
    hdaudio_irq_pio_ranges st = patched_ranges b ∧
    hdaudio_irq_commands st = patched_commands a0 a3.


(** A driver state in which device 1 has soft state and a function. *)
Definition example_state_with_function : drv_state :=
  mk_drv hdaudio_irq_pio_ranges_init hdaudio_irq_commands_init
    {[ 1 := mk_hda 0x1000 0xfeb00000 0x4000 0x7f000000 0x2000 0x3000 ]} [].

(** The message every failing call of [hda_dev_add] ends with. *)
Definition failing_hda_dev_add : event :=
  Ev_ddf_msg LVL_NOTE "Failing hda_dev_add() -> %d".

(** A device that reports two interrupts, and one whose function cannot
    be bound; all else as in [example_env]. *)
Definition example_env_two_irqs : add_env :=
  mk_add_env true 0x1000 0
    (mk_hw_res [mk_addr_range 0xfeb00000 0x4000] [11; 5])
    0 0x7f000000 0 0x2000 0x2000 0x3000 0.

Definition example_env_bind_fails : add_env :=
  mk_add_env true 0x1000 0
    (mk_hw_res [mk_addr_range 0xfeb00000 0x4000] [11])
    0 0x7f000000 0 0x2000 0x2000 0x3000 (-2).

(** A device that reports two memory ranges. *)
Definition example_env_two_ranges : add_env :=
  mk_add_env true 0x1000 0
    (mk_hw_res [mk_addr_range 0xfeb00000 0x4000;
                mk_addr_range 0xfeb10000 0x4000] [11])
    0 0x7f000000 0 0x2000 0x2000 0x3000 0.

End Hdaudio.

(* ===================================================================== *)
(** ** uspace/drv/rootpc/rootpc.c *)
(* ===================================================================== *)

Module Rootpc.

Inductive event : Type :=
| Ev_printf (fmt : string) (args : list string)
| Ev_printf_handle (fmt : string) (handle : Z)
| Ev_ddf_fun_create (dev : Z) (name : string)
| Ev_set_driver_data (fnode : Z)
| Ev_create_match_id
| Ev_add_match_id (fnode : Z) (id : string) (score : Z)
| Ev_set_ops (fnode : Z)
| Ev_ddf_fun_bind (fnode : Z)
| Ev_clear_match_id (match_id : Z)
| Ev_ddf_fun_destroy (fnode : Z).

(** What the functions called by [rootpc_add_fun] give back: the node
    from [ddf_fun_create], the match id from [create_match_id] (null on
    failure, both) and the code from [ddf_fun_bind]. *)
Record add_env : Type := mk_add_env {
  env_ddf_fun_create : Z;
  env_create_match_id : Z;
  env_ddf_fun_bind : Z
}.

Definition M (A : Type) : Type := list event → A * list event.

#[global] Instance rootpc_ret : MRet M := λ A a tr, (a, tr).

#[global] Instance rootpc_bind : MBind M := λ A B k m tr,
  let '(a, tr') := m tr in k a tr'.

Definition emit (e : event) : M unit := λ tr, (tt, tr ++ [e]).

Definition when (b : bool) (m : M unit) : M unit :=
  if b then m else mret tt.

Section Driver.

Context {E : errno_h}.

(** The code at the [failure:] label of [rootpc_add_fun]. *)
Definition rootpc_add_fun_failure (name : string) (fnode match_id : Z)
  : M bool :=
  when (negb (match_id =? NULL)) (emit (Ev_clear_match_id match_id)) ;;
  when (negb (fnode =? NULL)) (emit (Ev_ddf_fun_destroy fnode)) ;;
  emit (Ev_printf "rootpc: failed to add function '%s'.\n" [name]) ;;
  mret false.

(** [static bool rootpc_add_fun(ddf_dev_t *dev, const char *name,
      const char *str_match_id, rootpc_fun_t *fun)] *)
Definition rootpc_add_fun (env : add_env) (dev : Z)
    (name str_match_id : string) : M bool :=
  emit (Ev_printf "rootpc: adding new function '%s'.\n" [name]) ;;
  emit (Ev_ddf_fun_create dev name) ;;
  let fnode := env_ddf_fun_create env in
  if fnode =? NULL then rootpc_add_fun_failure name fnode NULL
  else
    emit (Ev_set_driver_data fnode) ;;
    emit Ev_create_match_id ;;
    let match_id := env_create_match_id env in
    if match_id =? NULL then rootpc_add_fun_failure name fnode match_id
    else
      emit (Ev_add_match_id fnode str_match_id 100) ;;
      emit (Ev_set_ops fnode) ;;
      emit (Ev_ddf_fun_bind fnode) ;;
      if negb (env_ddf_fun_bind env =? EOK) then
        emit (Ev_printf "rootpc: error binding function %s.\n" [name]) ;;
        rootpc_add_fun_failure name fnode match_id
      else mret true.

(** [static bool rootpc_add_functions(ddf_dev_t *dev)] *)
Definition rootpc_add_functions (env : add_env) (dev : Z) : M bool :=
  rootpc_add_fun env dev "pci0" "intel_pci".

Definition failed_to_add_functions : event :=
  Ev_printf "rootpc: failed to add functions for PC platform.\n" [].

(** [static int rootpc_add_device(ddf_dev_t *dev)]; [handle] is
    [dev->handle]. *)
Definition rootpc_add_device (env : add_env) (dev handle : Z) : M Z :=
  emit (Ev_printf_handle
          "rootpc: rootpc_add_device, device handle = %d\n" handle) ;;
  ok ← rootpc_add_functions env dev;
  when (negb ok) (emit failed_to_add_functions) ;;
  mret EOK.

End Driver.

(** *** Observations on an event trace *)

Definition is_destroy (e : event) : bool :=
  match e with
  | Ev_ddf_fun_destroy _ => true
  | _ => false
  end.

Definition is_bind (e : event) : bool :=
  match e with
  | Ev_ddf_fun_bind _ => true
  | _ => false
  end.

Definition is_add_match_id (e : event) : bool :=
  match e with
  | Ev_add_match_id _ _ _ => true
  | _ => false
  end.

(** How often an event of a kind occurs. *)
Definition count (p : event → bool) (tr : list event) : nat :=
  length (filter (λ e, p e = true) tr).

(** Every [ddf_fun_bind] in the trace comes after an [add_match_id];
    [seen] says whether one has been met already. *)
Fixpoint binds_follow_match_id (seen : bool) (tr : list event) : bool :=
  match tr with
  | [] => true
  | e :: tr' =>
      if is_bind e then seen && binds_follow_match_id seen tr'
      else binds_follow_match_id (seen || is_add_match_id e) tr'
  end.

End Rootpc.

(* ===================================================================== *)
(** ** uspace/lib/usbhost/src/iface.c *)
(* ===================================================================== *)

Module Usbhost.

(** [usb_direction_t]: the two values the file names, and any other. *)
Inductive usb_direction_t : Type :=
| USB_DIRECTION_IN
| USB_DIRECTION_OUT
| USB_DIRECTION_other (v : Z).

(** [usb_target_t]: an address and an endpoint. *)
Record usb_target_t : Type := mk_usb_target {
  address : Z;
  endpoint : Z
}.

(** An argument of [usb_log_debug]: an integer, or the string that
    [usb_str_transfer_type] or [usb_str_direction] makes of a value. *)
Inductive log_arg : Type :=
| Arg_int (v : Z)
| Arg_usb_str_transfer_type (transfer_type : Z)
| Arg_usb_str_direction (direction : usb_direction_t).

(** The calls the file makes into the host controller driver and the log. *)
Inductive call : Type :=
| Call_usb_device_manager_get_info_by_address
    (dev_manager : Z) (addr : Z) (handle : Z) (path : Z)
| Call_usb_log_debug (fmt : string) (args : list log_arg)
| Call_hcd_add_ep (hcd : Z) (target : usb_target_t)
    (direction : usb_direction_t) (transfer_type : Z)
    (max_packet_size : Z) (size : Z)
| Call_hcd_remove_ep (hcd : Z) (target : usb_target_t)
    (direction : usb_direction_t)
| Call_hcd_send_batch (hcd : Z) (target : usb_target_t)
    (direction : usb_direction_t) (data : Z) (size : Z) (setup_data : Z)
    (in_callback : Z) (out_callback : Z) (arg : Z) (name : string).

(** A function returns a code, or an [assert] in it fails. *)
Inductive result : Type :=
| Returned (rc : Z)
| Assertion_failed.

(** What the callees give back: the [hcd_t *] that
    [dev_to_hcd(ddf_fun_get_dev(fun))] yields, and the code the one call
    into the host controller driver returns. *)
Record iface_env : Type := mk_iface_env {
  env_hcd : Z;
  env_rc : Z
}.

(** [&hcd->dev_manager], as an integer: the field's offset is taken as a
    parameter of the model. *)
Definition dev_manager_of (off_dev_manager hcd : Z) : Z := hcd + off_dev_manager.

(** [static int find_by_address(ddf_fun_t *fun, usb_address_t address,
      devman_handle_t *handle)] *)
Definition find_by_address (off_dev_manager : Z) (env : iface_env)
    (fun_ : Z) (addr : Z) (handle : Z) (tr : list call)
  : result * list call :=
  if fun_ =? NULL then (Assertion_failed, tr)
  else
    let hcd := env_hcd env in
    if hcd =? NULL then (Assertion_failed, tr)
    else
      (Returned (env_rc env),
       tr ++ [Call_usb_device_manager_get_info_by_address
                (dev_manager_of off_dev_manager hcd) addr handle NULL]).

(** [static int register_endpoint(ddf_fun_t *fun, usb_address_t address,
      usb_endpoint_t endpoint, usb_transfer_type_t transfer_type,
      usb_direction_t direction, size_t max_packet_size,
      unsigned interval)] *)
Definition register_endpoint (env : iface_env) (fun_ : Z)
    (addr endp : Z) (transfer_type : Z) (direction : usb_direction_t)
    (max_packet_size : Z) (interval : Z) (tr : list call)
  : result * list call :=
  if fun_ =? NULL then (Assertion_failed, tr)
  else
    let hcd := env_hcd env in
    if hcd =? NULL then (Assertion_failed, tr)
    else
      let size := max_packet_size in
      let target := mk_usb_target addr endp in
      (Returned (env_rc env),
       tr ++ [Call_usb_log_debug "Register endpoint %d:%d %s-%s %zuB %ums.\n"
                [Arg_int addr; Arg_int endp;
                 Arg_usb_str_transfer_type transfer_type;
                 Arg_usb_str_direction direction;
                 Arg_int max_packet_size; Arg_int interval];
              Call_hcd_add_ep hcd target direction transfer_type
                max_packet_size size]).

(** [static int unregister_endpoint(ddf_fun_t *fun, usb_address_t address,
      usb_endpoint_t endpoint, usb_direction_t direction)] *)
Definition unregister_endpoint (env : iface_env) (fun_ : Z)
    (addr endp : Z) (direction : usb_direction_t) (tr : list call)
  : result * list call :=
  if fun_ =? NULL then (Assertion_failed, tr)
  else
    let hcd := env_hcd env in
    if hcd =? NULL then (Assertion_failed, tr)
    else
      let target := mk_usb_target addr endp in
      (Returned (env_rc env),
       tr ++ [Call_usb_log_debug "Unregister endpoint %d:%d %s.\n"
                [Arg_int addr; Arg_int endp; Arg_usb_str_direction direction];
              Call_hcd_remove_ep hcd target direction]).

(** [static int usb_read(ddf_fun_t *fun, usb_target_t target,
      uint64_t setup_data, uint8_t *data, size_t size,
      usbhc_iface_transfer_in_callback_t callback, void *arg)] *)
Definition usb_read (env : iface_env) (fun_ : Z) (target : usb_target_t)
    (setup_data data size callback arg : Z) (tr : list call)
  : result * list call :=
  (Returned (env_rc env),
   tr ++ [Call_hcd_send_batch (env_hcd env) target USB_DIRECTION_IN
            data size setup_data callback NULL arg "READ"]).

(** [static int usb_write(ddf_fun_t *fun, usb_target_t target,
      uint64_t setup_data, const uint8_t *data, size_t size,
      usbhc_iface_transfer_out_callback_t callback, void *arg)] *)
Definition usb_write (env : iface_env) (fun_ : Z) (target : usb_target_t)
    (setup_data data size callback arg : Z) (tr : list call)
  : result * list call :=
  (Returned (env_rc env),
   tr ++ [Call_hcd_send_batch (env_hcd env) target USB_DIRECTION_OUT
            data size setup_data NULL callback arg "WRITE"]).

(** The interface function is handed a function node that has a host
    controller driver. *)
Definition example_iface_env : iface_env := mk_iface_env 0x5000 0.

(** A call into the host controller driver proper (not the log). *)
Definition is_hcd_call (c : call) : bool :=
  match c with
  | Call_usb_log_debug _ _ => false
  | _ => true
  end.

End Usbhost.

(* ===================================================================== *)
(** * Properties *)
(* ===================================================================== *)

(** ** [overlaps] *)

Lemma wrap_in_range (w x : Z) : 0 ≤ x < 2 ^ w → Macros.wrap w x = x.
Proof. intros Hx. unfold Macros.wrap. by apply Z.mod_small. Qed.

Lemma overlaps_nonzero (w s1 sz1 s2 sz2 : Z) :
  Macros.overlaps w s1 sz1 s2 sz2 ≠ 0 ↔
  s1 < Macros.wrap w (s2 + sz2) ∧ s2 < Macros.wrap w (s1 + sz1).
Proof.
  unfold Macros.overlaps. cbv zeta.
  destruct (Z.ltb_spec s1 (Macros.wrap w (s2 + sz2)));
    destruct (Z.ltb_spec s2 (Macros.wrap w (s1 + sz1))); simpl; lia.
Qed.

(** C8, as the claim has it, fails: the empty interval at address 5 lies
    inside the interval of 10 bytes at address 0, and [overlaps] answers 1
    (on a 32-bit machine; any width of at least 4 bits does). *)
Lemma overlaps_empty_interval_inside :
  Macros.overlaps 32 5 0 0 10 = 1 ∧
  ¬ (∀ s1 s2 sz2 : Z,
       0 ≤ s1 < 2 ^ 32 → 0 ≤ s2 < 2 ^ 32 → 0 ≤ sz2 < 2 ^ 32 →
       Macros.overlaps 32 s1 0 s2 sz2 = 0).
Proof.
  split; [reflexivity |].
  intros Hall. specialize (Hall 5 0 10). vm_compute in Hall.
  assert (1 = 0) as Habs by (apply Hall; split; congruence).
  discriminate Habs.
Qed.

(** C8 (amended): for start addresses that fit the machine word,
    [overlaps] returns nonzero exactly when [s1 < s2 + sz2] and
    [s2 < s1 + sz1], the two end addresses taken modulo [2 ^ w].  An
    interval of size 0 overlaps neither itself nor any interval that starts
    at or above its own start; it does overlap an interval exactly when its
    start lies strictly between that interval's start and (wrapped) end. *)
Theorem overlaps_characterisation (w s1 sz1 s2 sz2 : Z) :
  0 ≤ s1 < 2 ^ w → 0 ≤ s2 < 2 ^ w →
  (Macros.overlaps w s1 sz1 s2 sz2 ≠ 0 ↔
     s1 < (s2 + sz2) mod 2 ^ w ∧ s2 < (s1 + sz1) mod 2 ^ w) ∧
  (Macros.overlaps w s1 0 s2 sz2 ≠ 0 ↔ s2 < s1 < (s2 + sz2) mod 2 ^ w) ∧
  Macros.overlaps w s1 0 s1 0 = 0 ∧
  (s1 ≤ s2 → Macros.overlaps w s1 0 s2 sz2 = 0).
Proof.
  intros H1 H2.
  assert (Macros.wrap w (s1 + 0) = s1) as E1
    by (rewrite Z.add_0_r; by apply wrap_in_range).
  split; [apply overlaps_nonzero |].
  split.
  { rewrite overlaps_nonzero, E1. unfold Macros.wrap. lia. }
  split.
  { unfold Macros.overlaps. cbv zeta. rewrite E1.
    destruct (Z.ltb_spec s1 s1); [lia | reflexivity]. }
  intros Hle. unfold Macros.overlaps. cbv zeta. rewrite E1.
  destruct (Z.ltb_spec s2 s1); [lia |].
  by rewrite andb_false_r.
Qed.

Lemma overlaps_characterisation_witness :
  (Macros.overlaps 32 5 0 0 10 ≠ 0 ↔ 0 < 5 < (0 + 10) mod 2 ^ 32) ∧
  Macros.overlaps 32 5 0 5 0 = 0.
Proof.
  pose proof (overlaps_characterisation 32 5 0 0 10) as H.
  destruct H as (_ & Hempty & Hself & _); [lia | lia |].
  split; [exact Hempty | exact Hself].
Defined.

(** ** The interpreter *)

Import Interp.

(** A command leaves the program counter and the record of dispatched
    commands alone: only the loop moves on. *)
Lemma exec_cmd_frame (c : Command) (s : istate) :
  match exec_cmd c s with
  | Next s' | Halt _ s' => pc s' = pc s ∧ executed s' = executed s
  end.
Proof.
  destruct c; simpl; try done.
  destruct (get_scratch src s =? expected); done.
Qed.

(** The loop's invariant: the commands dispatched so far are those at
    indices [0 .. pc - 1], in this order. *)
Lemma run_one_pass (fuel : nat) (prog : list Command) :
  ∀ s : istate,
    executed s = seq 0 (pc s) →
    (pc s ≤ length prog)%nat →
    ∃ n : nat,
      executed (run fuel prog s).2 = seq 0 n ∧
      (pc s ≤ n ≤ length prog)%nat ∧
      (n ≤ pc s + fuel)%nat ∧
      ((length prog ≤ pc s + fuel)%nat → (run fuel prog s).1 ≠ OutOfFuel).
Proof.
  induction fuel as [|fuel IH]; intros s Hex Hpc; simpl.
  - destruct (prog !! pc s) as [c|] eqn:Hc; simpl.
    + apply lookup_lt_Some in Hc. exists (pc s). repeat split; try lia; done.
    + exists (pc s). repeat split; try lia; done.
  - destruct (prog !! pc s) as [c|] eqn:Hc; simpl.
    + apply lookup_lt_Some in Hc.
      pose proof (exec_cmd_frame c (fetched s)) as Hfr.
      destruct (exec_cmd c (fetched s)) as [s'|v s']; simpl in *;
        destruct Hfr as [Hpc' Hex'].
      * destruct (IH (advance s')) as (n & Hn & Hle & Hfuel & Hout).
        { unfold advance; cbn [pc executed].
          rewrite Hex', Hex, Hpc'. symmetry. apply seq_S. }
        { simpl. lia. }
        simpl in *. exists n. repeat split; try lia; try done.
        intros Hlen. apply Hout. lia.
      * exists (S (pc s)). rewrite Hex', Hex, seq_S.
        repeat split; try lia; done.
    + exists (pc s). repeat split; try lia; done.
Qed.

(** C5: every run of the interpreter is one pass over the array.  The
    commands it dispatches are those at indices 0, 1, ..., n - 1 in this
    order (no index is visited twice and none is skipped or revisited), n
    is at most [cmdcount], and the run needs no more iterations than that:
    it ends with a verdict or at the end of the list, never short of
    fuel. *)
Theorem execute_one_pass_bounded (enc : irq_cmd_t → Z)
    (code : irq_code_t) (m : gmap Z Z) :
  ∃ n : nat,
    executed (execute enc code m).2 = seq 0 n ∧
    (n ≤ cmdcount code)%nat ∧
    (execute enc code m).1 ≠ OutOfFuel.
Proof.
  unfold execute, interpret.
  destruct (run_one_pass (length (program enc code)) (program enc code)
              (initial m))
    as (n & Hn & Hle & _ & Hout); [done | simpl; lia |].
  exists n. split; [done |]. split.
  - unfold program in Hle. rewrite length_take in Hle. lia.
  - apply Hout. simpl. lia.
Qed.

(** *** The predicate's short circuit *)

Lemma run_step (fuel : nat) (prog : list Command) (s : istate) (c : Command) :
  prog !! pc s = Some c →
  run (S fuel) prog s =
    match exec_cmd c (fetched s) with
    | Halt v s' => (Finished v, s')
    | Next s' => run fuel prog (advance s')
    end.
Proof. intros Hc. simpl. by rewrite Hc. Qed.

Lemma get_scratch_set (i : nat) (v : Z) (s : istate) :
  get_scratch i (set_scratch i v s) = v.
Proof. unfold get_scratch, set_scratch; simpl. by rewrite lookup_insert_eq. Qed.

Lemma get_scratch_fetched (i : nat) (s : istate) :
  get_scratch i (fetched s) = get_scratch i s.
Proof. reflexivity. Qed.

Lemma get_scratch_advance (i : nat) (s : istate) :
  get_scratch i (advance s) = get_scratch i s.
Proof. reflexivity. Qed.

(** A probe whose masked value differs from what the [PREDICATE] expects
    stops at the [PREDICATE]. *)
Lemma probe_stops_at_predicate
    (rw ra : Z) (s0 : nat) (mask : Z) (s1 : nat) (X : Z)
    (ww wa : Z) (wsrc : operand) (m : gmap Z Z) :
  let r := interpret (probe_shape rw ra s0 mask s1 X ww wa wsrc) m in
  Z.land (read rw ra m) mask ≠ X →
  r.1 = Finished NotClaimed ∧
  bus_writes r.2 = [] ∧
  mem r.2 = m ∧
  executed r.2 = [0; 1; 2]%nat.
Proof.
  intros r Hne. subst r. unfold interpret, probe_shape.
  change (length _) with 5%nat.
  erewrite run_step by reflexivity. cbn [exec_cmd].
  erewrite run_step by reflexivity. cbn [exec_cmd].
  erewrite run_step by reflexivity. cbn [exec_cmd].
  repeat (progress rewrite ?get_scratch_fetched, ?get_scratch_advance,
            ?get_scratch_set).
  destruct (Z.eqb_spec (Z.land (read rw ra (mem (fetched (initial m)))) mask) X)
    as [Heq|_]; [done |].
  done.
Qed.

(** C1: a list of the shape [READ, AND(mask), PREDICATE(expected = X),
    WRITE, ACCEPT], run against registers where the value read, masked,
    differs from [X], ends with the verdict [NotClaimed] after three
    commands; the [WRITE] is never executed: no bus write is observed and
    the registers are as they were. *)
Theorem predicate_short_circuit
    (rw ra : Z) (s0 : nat) (mask : Z) (s1 : nat) (X : Z)
    (ww wa : Z) (wsrc : operand) (m : gmap Z Z) :
  Z.land (read rw ra m) mask ≠ X →
  (interpret (probe_shape rw ra s0 mask s1 X ww wa wsrc) m).1
    = Finished NotClaimed ∧
  bus_writes (interpret (probe_shape rw ra s0 mask s1 X ww wa wsrc) m).2 = [] ∧
  mem (interpret (probe_shape rw ra s0 mask s1 X ww wa wsrc) m).2 = m ∧
  executed (interpret (probe_shape rw ra s0 mask s1 X ww wa wsrc) m).2
    = [0; 1; 2]%nat.
Proof. intros Hne. by apply probe_stops_at_predicate. Qed.

(** Meeting a terminal command ends the run with a verdict, so a list that
    has one is never run off its end. *)
Lemma run_meets_terminal (fuel : nat) (prog : list Command) :
  ∀ s : istate,
    (∃ (i : nat) (c : Command),
        (pc s ≤ i)%nat ∧ prog !! i = Some c ∧ is_terminal c = true) →
    (run fuel prog s).1 ≠ Exhausted.
Proof.
  induction fuel as [|fuel IH]; intros s (i & c & Hle & Hi & Hterm); simpl.
  - destruct (prog !! pc s) eqn:Hpc; simpl; [done |].
    apply lookup_ge_None in Hpc. apply lookup_lt_Some in Hi. lia.
  - destruct (prog !! pc s) as [c0|] eqn:Hpc; simpl.
    + pose proof (exec_cmd_frame c0 (fetched s)) as Hfr.
      destruct (exec_cmd c0 (fetched s)) as [s'|v s'] eqn:Hex; simpl; [|done].
      destruct Hfr as [Hpc' _]. apply IH. exists i, c.
      split; [|done]. simpl. rewrite Hpc'. simpl.
      destruct (decide (pc s = i)) as [Heq|Hne]; [|lia].
      rewrite Heq in Hpc. rewrite Hi in Hpc. injection Hpc as <-.
      destruct c; simpl in Hterm, Hex; discriminate.
    + apply lookup_ge_None in Hpc. apply lookup_lt_Some in Hi. lia.
Qed.

Lemma terminal_list_not_exhausted (prog : list Command) (m : gmap Z Z) :
  ends_in_terminal prog = true → (interpret prog m).1 ≠ Exhausted.
Proof.
  intros Hex. unfold ends_in_terminal in Hex.
  apply existsb_exists in Hex as (c & Hin & Hterm).
  apply list_elem_of_In, list_elem_of_lookup in Hin as [i Hi].
  apply run_meets_terminal. exists i, c. simpl. split; [lia | done].
Qed.

Lemma read_insert_eq (width a v : Z) (m : gmap Z Z) :
  read width a (<[a := v]> m) = fixed_width width v.
Proof. unfold read. by rewrite lookup_insert_eq. Qed.

(** Run a list of known commands against symbolic registers. *)
Ltac interp_run :=
  unfold interpret, hdaudio_style_example, probe_shape; cbn [length];
  repeat (erewrite run_step by reflexivity; cbn [exec_cmd];
          repeat (progress rewrite ?get_scratch_fetched, ?get_scratch_advance,
                    ?get_scratch_set);
          cbn [mem fetched advance set_scratch initial];
          rewrite ?read_insert_eq).

(** The specification's example list claims the interrupt when the status
    register holds 0x01, writing 0x01 back once. *)
Lemma hdaudio_style_example_claims (reg : Z) (m : gmap Z Z) :
  let r := interpret (hdaudio_style_example reg) (<[reg := 1]> m) in
  r.1 = Finished Claimed ∧
  bus_writes r.2 = [mk_bus_write 1 reg 1] ∧
  read 1 reg (mem r.2) = 1.
Proof.
  intros r. subst r. interp_run.
  change (Z.land (fixed_width 1 1) 1 =? 1) with true. cbv iota.
  interp_run. cbn [fst snd operand_value].
  split; [done |]. split; [reflexivity |].
  cbn [mem fetched advance bus_store]. unfold write.
  by rewrite read_insert_eq.
Qed.

(** ** The HD-Audio driver *)

Import Hdaudio.

(** Symbolic execution of [hda_dev_add]: unfold the monad, then split on
    the test the control flow is waiting for. *)
Ltac hda_eval :=
  cbv beta iota zeta delta
    [hda_dev_add hda_dev_add_body hda_dev_add_error mbind mret hda_bind
     hda_ret ret when ddf_msg emit set_hda get_hda hda_of store_range_base
     store_cmd_addr set_range_base set_cmd_addr get_irq_code goto_error
     fst snd hdaudio_irq_pio_ranges hdaudio_irq_commands dev_data events
     parent_sess rwbase rwsize regs ctl fun_a andb default id
     mem_ranges irqs RNGABS RNGSZ
     env_dev_data_alloc env_parent_sess env_hw_res_rc env_hw_res
     env_pio_enable_rc env_pio_regs env_register_rc env_hda_ctl_init
     env_hda_ctl_field env_fun_create env_fun_bind_rc];
  rewrite ?lookup_insert_eq, ?Z.eqb_refl;
  cbn [length Nat.eqb negb lookup list_lookup].

Ltac hda_branch :=
  match goal with
  | |- context [(if ?b then _ else _) ?s] => destruct b eqn:?
  end.

Ltac hda_paths := repeat (hda_eval; try hda_branch).

(** What one call of [hda_dev_add] adds to the trace and does to the
    global arrays: either it never gets as far as patching them, or it
    patches them for the one memory range, registers the code as patched,
    and leaves it so. *)
Lemma hda_dev_add_events {E : errno_h} {R : hda_regs_h}
    (w : Z) (env : add_env) (dev : Z) (st : drv_state) :
  let st' := (hda_dev_add w env dev st).2 in
  ∃ new : list event,
    events st' = events st ++ new ∧
    frozen_after_registration new = true ∧
    ((registrations new = [] ∧ no_store new = true ∧
      hdaudio_irq_pio_ranges st' = hdaudio_irq_pio_ranges st ∧
      hdaudio_irq_commands st' = hdaudio_irq_commands st)
     ∨
     (∃ (r0 : addr_range_t) (irq : Z),
        mem_ranges (env_hw_res env) = [r0] ∧
        registrations new = [(dev, irq, hdaudio_irq_code st')] ∧
        hdaudio_irq_pio_ranges st' =
          alter (λ r, mk_irq_pio_range (to_uintptr w (RNGABS r0)) (size r))
            0%nat (hdaudio_irq_pio_ranges st) ∧
        hdaudio_irq_commands st' =
          alter (λ c, mk_irq_cmd (cmd c)
                        (field_rirbsts w (to_uintptr w (RNGABS r0)))
                        (value c) (srcarg c) (dstarg c)) 3%nat
            (alter (λ c, mk_irq_cmd (cmd c)
                           (field_rirbsts w (to_uintptr w (RNGABS r0)))
                           (value c) (srcarg c) (dstarg c)) 0%nat
               (hdaudio_irq_commands st)))).
Proof.
  destruct st as [rs cs dd ev].
  destruct env as [al ps hrc [mr iq] prc pregs rrc ci cf fc fb].
  destruct mr as [|r0 [|r1 mr]].
  all: hda_paths.
  all: eexists; (split; [rewrite <- ?app_assoc; reflexivity |]).
  all: split; [reflexivity |].
  all: try (left; repeat split; reflexivity).
  all: right; exists r0; eexists; repeat split; reflexivity.
Qed.

(** The entry points other than [hda_dev_add] do not touch the global
    arrays. *)
Lemma other_ops_leave_globals {E : errno_h} {R : hda_regs_h}
    (w : Z) (o : op) (st : drv_state) :
  match o with
  | Op_dev_add _ _ => True
  | _ =>
      hdaudio_irq_pio_ranges (run_op w o st) = hdaudio_irq_pio_ranges st ∧
      hdaudio_irq_commands (run_op w o st) = hdaudio_irq_commands st ∧
      ∃ new : list event,
        events (run_op w o st) = events st ++ new ∧
        no_store new = true ∧ no_register new = true
  end.
Proof.
  destruct st as [rs cs dd ev].
  destruct o as [env dev|r1 r2 dev|r dev|r f|r f|dev]; [done | ..];
    unfold run_op, hda_dev_remove, hda_dev_gone, hda_fun_online,
      hda_fun_offline, hdaudio_interrupt.
  all: cbv beta iota zeta delta
         [mbind mret hda_bind hda_ret ret ddf_msg emit get_hda hda_of
          fst snd hdaudio_irq_pio_ranges hdaudio_irq_commands dev_data events].
  all: repeat match goal with
         | |- context [(if ?b then _ else _) ?s] => destruct b
         end.
  all: cbv beta iota zeta delta
         [mbind mret hda_bind hda_ret ret ddf_msg emit get_hda hda_of
          fst snd hdaudio_irq_pio_ranges hdaudio_irq_commands dev_data events].
  all: split; [reflexivity |]; split; [reflexivity |].
  all: eexists; (split; [rewrite <- ?app_assoc; reflexivity |]).
  all: split; reflexivity.
Qed.

Lemma no_store_frozen (tr : list event) :
  no_store tr = true → frozen_after_registration tr = true.
Proof.
  induction tr as [|e tr IH]; [done |]. unfold no_store. simpl.
  intros [He Htr]%andb_true_iff. destruct (is_register e); [done |].
  by apply IH.
Qed.

(** C6, as the claim has it, fails: the arrays are globals shared by all
    devices of the driver.  After the device at 0xfeb00000 has been added
    and its code registered, adding the device at 0xfea00000 stores into
    the same arrays again, and they no longer hold what was registered
    first. *)
Lemma second_hda_device_repatches_the_arrays :
  let add1 := Op_dev_add (example_env 0xfeb00000 11) 1 in
  let add2 := Op_dev_add (example_env 0xfea00000 10) 2 in
  let st1 :=
    run_op (E := example_errno) (R := example_hda_regs) 32 add1 drv_init in
  let st2 :=
    run_op (E := example_errno) (R := example_hda_regs) 32 add2 st1 in
  registrations (events st1) = [(1, 11, hdaudio_irq_code st1)] ∧
  frozen_after_registration (events st1) = true ∧
  frozen_after_registration (events st2) = false ∧
  hdaudio_irq_code st2 ≠ hdaudio_irq_code st1.
Proof.
  cbv zeta. split; [vm_compute; reflexivity |].
  split; [vm_compute; reflexivity |].
  split; [vm_compute; reflexivity |].
  vm_compute. discriminate.
Qed.

(** C6 (amended): within one call of an entry point of the driver the
    global arrays are never stored into after a registration.  In
    [hda_dev_add] every store precedes the call of
    [register_interrupt_handler], the code is registered at most once, and
    the arrays hold at return what was registered; [hda_dev_remove],
    [hda_dev_gone], [hda_fun_online], [hda_fun_offline] and
    [hdaudio_interrupt] store nothing into the arrays and leave them as
    they are.  (A later call of [hda_dev_add], for another device, patches
    the same arrays again.) *)
Theorem hda_arrays_frozen_within_a_call {E : errno_h} {R : hda_regs_h}
    (w : Z) (o : op) (st : drv_state) :
  let st' := run_op w o st in
  ∃ new : list event,
    events st' = events st ++ new ∧
    frozen_after_registration new = true ∧
    match o with
    | Op_dev_add env dev =>
        registrations new = [] ∨
        ∃ irq : Z, registrations new = [(dev, irq, hdaudio_irq_code st')]
    | _ =>
        no_store new = true ∧
        hdaudio_irq_pio_ranges st' = hdaudio_irq_pio_ranges st ∧
        hdaudio_irq_commands st' = hdaudio_irq_commands st
    end.
Proof.
  intros st'. subst st'.
  pose proof (other_ops_leave_globals w o st) as Hother.
  destruct o as [env dev|r1 r2 dev|r dev|r f|r f|dev].
  { destruct (hda_dev_add_events w env dev st)
      as (new & Hev & Hfr & [(Hreg & _)|(r0 & irq & _ & Hreg & _)]);
      exists new; (split; [exact Hev |]); (split; [exact Hfr |]).
    - by left.
    - right. by exists irq. }
  all: destruct Hother as (Hr & Hc & new & Hev & Hns & _).
  all: exists new; (split; [exact Hev |]).
  all: split; [by apply no_store_frozen | done].
Qed.

(** C9: once the resource list has been obtained, [hda_dev_add] returns
    [EINVAL] without patching or registering the interrupt code when the
    list does not hold exactly one memory range, and also when its one
    memory range is smaller than [sizeof(hda_regs_t)]. *)
Theorem hda_dev_add_bad_memory_range {E : errno_h} {R : hda_regs_h}
    (w : Z) (env : add_env) (dev : Z) (st : drv_state) :
  env_dev_data_alloc env = true →
  env_parent_sess env ≠ NULL →
  env_hw_res_rc env = EOK →
  (length (mem_ranges (env_hw_res env)) ≠ 1%nat ∨
   ∃ r0 : addr_range_t,
     mem_ranges (env_hw_res env) = [r0] ∧ RNGSZ r0 < sizeof_hda_regs_t) →
  (hda_dev_add w env dev st).1 = EINVAL ∧
  no_register (added (events st) (events (hda_dev_add w env dev st).2)) = true ∧
  no_store (added (events st) (events (hda_dev_add w env dev st).2)) = true.
Proof.
  intros Halloc Hsess Hrc Hbad.
  destruct st as [rs cs dd ev].
  destruct env as [al ps hrc [mr iq] prc pregs rrc ci cf fc fb].
  cbn [env_dev_data_alloc env_parent_sess env_hw_res_rc env_hw_res
       mem_ranges] in *.
  subst al hrc. apply Z.eqb_neq in Hsess.
  unfold added.
  destruct Hbad as [Hlen|(r0 & -> & Hsz)].
  - destruct mr as [|r0 [|r1 mr]]; [| done |].
    all: hda_paths; try congruence.
    all: rewrite <- ?app_assoc, drop_app_length; done.
  - destruct r0 as [abs sz]. cbn [RNGSZ] in Hsz. apply Z.ltb_lt in Hsz.
    hda_paths; try congruence.
    all: rewrite <- ?app_assoc, drop_app_length; done.
Qed.

Lemma hda_dev_add_bad_memory_range_witness :
  let r := hda_dev_add (E := example_errno) (R := example_hda_regs)
             32 example_env_two_ranges 1 drv_init in
  r.1 = -15 ∧ no_register (added [] (events r.2)) = true.
Proof.
  cbv zeta.
  destruct (hda_dev_add_bad_memory_range (E := example_errno)
              (R := example_hda_regs) 32 example_env_two_ranges 1 drv_init)
    as (Hrc & Hreg & _).
  - reflexivity.
  - vm_compute. discriminate.
  - reflexivity.
  - left. simpl. lia.
  - split; [exact Hrc | exact Hreg].
Defined.

(** *** The code the driver registers *)

Lemma arrays_patched_init : arrays_patched drv_init.
Proof. exists 0, 0, 0. split; reflexivity. Qed.

Lemma run_op_patched {E : errno_h} {R : hda_regs_h}
    (w : Z) (o : op) (st : drv_state) :
  arrays_patched st → arrays_patched (run_op w o st).
Proof.
  intros (b & a0 & a3 & Hr & Hc).
  pose proof (other_ops_leave_globals w o st) as Hother.
  destruct o as [env dev|r1 r2 dev|r dev|r f|r f|dev].
  { unfold run_op.
    destruct (hda_dev_add_events w env dev st)
      as (new & _ & _ & [(_ & _ & Hr' & Hc')|(r0 & irq & _ & _ & Hr' & Hc')]);
      cbv zeta in *.
    - exists b, a0, a3. by rewrite Hr', Hc'.
    - eexists _, _, _. rewrite Hr', Hc', Hr, Hc. split; reflexivity. }
  all: destruct Hother as (Hr' & Hc' & _).
  all: exists b, a0, a3; by rewrite Hr', Hc'.
Qed.

(** Whatever the driver has been asked to do so far, its arrays are the
    initialisers up to the three patched places. *)
Lemma run_ops_patched {E : errno_h} {R : hda_regs_h}
    (w : Z) (ops : list op) :
  ∀ st : drv_state, arrays_patched st → arrays_patched (run_ops w ops st).
Proof.
  induction ops as [|o ops IH]; intros st Hst; [exact Hst |].
  apply (IH (run_op w o st)). by apply run_op_patched.
Qed.

(** A call of [hda_dev_add] that registers a code registers this one. *)
Lemma hda_dev_add_registered_code {E : errno_h} {R : hda_regs_h}
    (w : Z) (env : add_env) (dev : Z) (st : drv_state)
    (d irq : Z) (code : irq_code_t) :
  arrays_patched st →
  (d, irq, code) ∈
    registrations (added (events st) (events (hda_dev_add w env dev st).2)) →
  ∃ r0 : addr_range_t,
    mem_ranges (env_hw_res env) = [r0] ∧
    d = dev ∧
    code =
      mk_irq_code 1 (patched_ranges (to_uintptr w (RNGABS r0))) 5
        (patched_commands (field_rirbsts w (to_uintptr w (RNGABS r0)))
                          (field_rirbsts w (to_uintptr w (RNGABS r0)))).
Proof.
  intros (b & a0 & a3 & Hranges & Hcmds) Hin.
  destruct (hda_dev_add_events w env dev st)
    as (new & Hev & _ & [(Hreg & _)|(r0 & irq' & Hmem & Hreg & Hr & Hc)]);
    cbv zeta in *; unfold added in Hin;
    rewrite Hev, drop_app_length, Hreg in Hin.
  - by apply elem_of_nil in Hin.
  - apply list_elem_of_singleton in Hin. injection Hin as -> -> ->.
    exists r0. split; [done |]. split; [done |].
    unfold hdaudio_irq_code. rewrite Hr, Hc, Hranges, Hcmds. reflexivity.
Qed.





Lemma predicate_short_circuit_witness :
  let st1 := (hda_dev_add (E := example_errno) (R := example_hda_regs)
                32 (example_env 0xfeb00000 11) 1 drv_init).2 in
  program (λ _, 1) (hdaudio_irq_code st1) =
    probe_shape 1 0xfeb0005d 2 1 3 1 1 0xfeb0005d (Imm 1) ∧
  (interpret (probe_shape 1 0xfeb0005d 2 1 3 1 1 0xfeb0005d (Imm 1))
     {[ 0xfeb0005d := 0 ]}).1 = Finished NotClaimed ∧
  bus_writes
    (interpret (probe_shape 1 0xfeb0005d 2 1 3 1 1 0xfeb0005d (Imm 1))
       {[ 0xfeb0005d := 0 ]}).2 = [].
Proof.
  cbv zeta. split; [vm_compute; reflexivity |].
  destruct (predicate_short_circuit 1 0xfeb0005d 2 1 3 1 1 0xfeb0005d (Imm 1)
              {[ 0xfeb0005d := 0 ]}) as (Hv & Hw & _).
  - vm_compute. discriminate.
  - split; [exact Hv | exact Hw].
Defined.

(** *** Determinism *)














(** *** Terminal commands *)

(** C3, as the claim has it, fails for the msim keyboard: the list that
    [kbd_arch_init] registers is the single command [CMD_MEM_READ_1]; it
    holds no [ACCEPT] and no [DECLINE], and a run of it falls off the end
    of the list. *)
Lemma msim_kbd_has_no_terminal :
  (Kbd.kbd_arch_init []).2 = [Kbd.Ev_ipc_register_irq 2 Kbd.msim_kbd] ∧
  cmd <$> cmds Kbd.msim_kbd = [CMD_MEM_READ_1] ∧
  (∀ enc : irq_cmd_t → Z,
     program enc Kbd.msim_kbd = [READ 1 0xB0000000 0] ∧
     ends_in_terminal (program enc Kbd.msim_kbd) = false ∧
     (execute enc Kbd.msim_kbd ∅).1 = Exhausted).
Proof. repeat split; reflexivity. Qed.

(** C3 (amended): whatever the driver has done before, the list the
    HD-Audio driver registers ends in the terminal command [ACCEPT], and
    no run of it falls off the end of the list; the list the msim
    keyboard registers is the single command [CMD_MEM_READ_1], has no
    terminal command, and every run of it ends at the end of the list,
    after the read. *)
Theorem registered_lists_and_terminal_commands
    {E : errno_h} {R : hda_regs_h}
    (w : Z) (ops : list op) (env : add_env) (dev : Z)
    (d irq : Z) (code : irq_code_t) :
  (d, irq, code) ∈
    registrations
      (added (events (run_ops w ops drv_init))
         (events (hda_dev_add w env dev (run_ops w ops drv_init)).2)) →
  (last (cmd <$> cmds code) = Some CMD_ACCEPT ∧
   ∀ enc : irq_cmd_t → Z,
     last (program enc code) = Some ACCEPT ∧
     ends_in_terminal (program enc code) = true ∧
     ∀ m : gmap Z Z, (execute enc code m).1 ≠ Exhausted) ∧
  ((Kbd.kbd_arch_init []).2 = [Kbd.Ev_ipc_register_irq 2 Kbd.msim_kbd] ∧
   cmd <$> cmds Kbd.msim_kbd = [CMD_MEM_READ_1] ∧
   ∀ enc : irq_cmd_t → Z,
     ends_in_terminal (program enc Kbd.msim_kbd) = false ∧
     ∀ m : gmap Z Z,
       (execute enc Kbd.msim_kbd m).1 = Exhausted ∧
       executed (execute enc Kbd.msim_kbd m).2 = [0%nat]).
Proof.
  intros Hin.
  destruct (hda_dev_add_registered_code w env dev _ d irq code
              (run_ops_patched w ops _ arrays_patched_init) Hin)
    as (r0 & _ & _ & ->).
  split.
  - split; [reflexivity |]. intros enc.
    split; [reflexivity |]. split; [reflexivity |].
    intros m. by apply terminal_list_not_exhausted.
  - repeat split; reflexivity.
Qed.

Lemma registered_lists_and_terminal_commands_witness :
  let st0 := run_ops (E := example_errno) (R := example_hda_regs) 32
               [Op_dev_add (example_env 0xfea00000 10) 2] drv_init in
  let st1 := (hda_dev_add (E := example_errno) (R := example_hda_regs)
                32 (example_env 0xfeb00000 11) 1 st0).2 in
  last (cmd <$> cmds (hdaudio_irq_code st1)) = Some CMD_ACCEPT ∧
  cmd <$> cmds Kbd.msim_kbd = [CMD_MEM_READ_1].
Proof.
  cbv zeta.
  destruct (registered_lists_and_terminal_commands (E := example_errno)
              (R := example_hda_regs) 32
              [Op_dev_add (example_env 0xfea00000 10) 2]
              (example_env 0xfeb00000 11) 1 1 11
              (hdaudio_irq_code
                 (hda_dev_add (E := example_errno) (R := example_hda_regs)
                    32 (example_env 0xfeb00000 11) 1
                    (run_ops (E := example_errno) (R := example_hda_regs) 32
                       [Op_dev_add (example_env 0xfea00000 10) 2]
                       drv_init)).2))
    as ((Hlast & _) & (_ & Hmsim & _)).
  - vm_compute. left.
  - split; [exact Hlast | exact Hmsim].
Defined.

(** ** The msim keyboard *)

(** C7: whatever the scan code, [kbd_arch_process] calls
    [key_buffer_push] exactly once, with that scan code, calls nothing
    else, and returns 1. *)
Theorem kbd_arch_process_pushes_once (scan_code : Z) (tr : list Kbd.event) :
  (Kbd.kbd_arch_process scan_code tr).1 = 1 ∧
  (Kbd.kbd_arch_process scan_code tr).2
    = tr ++ [Kbd.Ev_key_buffer_push scan_code] ∧
  length (filter (λ e, Kbd.is_push e = true)
            (drop (length tr) (Kbd.kbd_arch_process scan_code tr).2)) = 1%nat.
Proof.
  unfold Kbd.kbd_arch_process. cbn [fst snd].
  rewrite drop_app_length. repeat split; reflexivity.
Qed.

(** ** The PC platform driver *)

Ltac rootpc_eval :=
  cbv beta iota zeta delta
    [Rootpc.rootpc_add_device Rootpc.rootpc_add_functions
     Rootpc.rootpc_add_fun Rootpc.rootpc_add_fun_failure Rootpc.when
     Rootpc.emit mbind mret Rootpc.rootpc_bind Rootpc.rootpc_ret
     Rootpc.failed_to_add_functions fst snd negb
     Rootpc.env_ddf_fun_create Rootpc.env_create_match_id
     Rootpc.env_ddf_fun_bind];
  rewrite ?Z.eqb_refl.

(** C10: [rootpc_add_device] returns [EOK] whatever its callees do.  When
    [rootpc_add_functions] fails, the last thing it does is print
    "failed to add functions for PC platform."; when it succeeds, nothing
    of the kind is printed; the return code is the same. *)
Theorem rootpc_add_device_returns_EOK {E : errno_h}
    (env : Rootpc.add_env) (dev handle : Z) (tr : list Rootpc.event) :
  (Rootpc.rootpc_add_device env dev handle tr).1 = EOK ∧
  ∃ new : list Rootpc.event,
    (Rootpc.rootpc_add_device env dev handle tr).2 = tr ++ new ∧
    (if (Rootpc.rootpc_add_functions env dev
           (tr ++ [Rootpc.Ev_printf_handle
                     "rootpc: rootpc_add_device, device handle = %d\n"
                     handle])).1
     then last new ≠ Some Rootpc.failed_to_add_functions
     else last new = Some Rootpc.failed_to_add_functions).
Proof.
  destruct env as [fnode mid brc].
  rootpc_eval.
  destruct (fnode =? NULL) eqn:Hf; rootpc_eval.
  2: destruct (mid =? NULL) eqn:Hm; rootpc_eval.
  3: destruct (brc =? EOK) eqn:Hb; rootpc_eval.
  all: split; [reflexivity |].
  all: eexists; (split; [rewrite <- ?app_assoc; reflexivity |]).
  all: cbn; done.
Qed.

(* ===================================================================== *)
(** * Further properties of the code *)
(* ===================================================================== *)

(** ** macros.h *)

(** X1: [overlaps] does not depend on the order in which the two
    intervals are given. *)
Theorem overlaps_symmetric (w s1 sz1 s2 sz2 : Z) :
  Macros.overlaps w s1 sz1 s2 sz2 = Macros.overlaps w s2 sz2 s1 sz1.
Proof. unfold Macros.overlaps. cbv zeta. by rewrite andb_comm. Qed.

(** X2: for two non-empty intervals whose ends do not wrap around the
    address space, [overlaps] answers whether they share an address. *)
Theorem overlaps_shared_address (w s1 sz1 s2 sz2 : Z) :
  0 ≤ s1 → 0 < sz1 → s1 + sz1 < 2 ^ w →
  0 ≤ s2 → 0 < sz2 → s2 + sz2 < 2 ^ w →
  (Macros.overlaps w s1 sz1 s2 sz2 ≠ 0 ↔
   ∃ x : Z, s1 ≤ x < s1 + sz1 ∧ s2 ≤ x < s2 + sz2).
Proof.
  intros H1 Hz1 He1 H2 Hz2 He2.
  rewrite overlaps_nonzero, !wrap_in_range by lia.
  split.
  - intros [Ha Hb]. exists (Z.max s1 s2). lia.
  - intros (x & Hx1 & Hx2). lia.
Qed.

Lemma overlaps_shared_address_witness :
  Macros.overlaps 32 0x1000 0x1000 0x1800 0x100 ≠ 0 ↔
  ∃ x : Z, 0x1000 ≤ x < 0x1000 + 0x1000 ∧ 0x1800 ≤ x < 0x1800 + 0x100.
Proof.
  apply (overlaps_shared_address 32 0x1000 0x1000 0x1800 0x100); lia.
Defined.

(** X3: an interval that reaches the very top of the address space has
    its end address wrap to 0, and [overlaps] then reports no overlap with
    any interval, the interval itself included. *)
Theorem overlaps_blind_at_top (w s1 sz1 s2 sz2 : Z) :
  0 ≤ s2 →
  (s1 + sz1) mod 2 ^ w = 0 →
  Macros.overlaps w s1 sz1 s2 sz2 = 0 ∧ Macros.overlaps w s2 sz2 s1 sz1 = 0.
Proof.
  intros H2 Hend.
  split.
  { unfold Macros.overlaps, Macros.wrap. cbv zeta. rewrite Hend.
    destruct (Z.ltb_spec s2 0); [lia |]. by rewrite andb_false_r. }
  unfold Macros.overlaps, Macros.wrap. cbv zeta. rewrite Hend.
  destruct (Z.ltb_spec s2 0); [lia |]. reflexivity.
Qed.

Lemma overlaps_blind_at_top_witness :
  Macros.overlaps 32 0xfffff000 0x1000 0xfffff000 0x1000 = 0 ∧
  Macros.overlaps 32 0xfffff000 0x1000 0xfffff000 0x1000 = 0.
Proof.
  apply (overlaps_blind_at_top 32 0xfffff000 0x1000 0xfffff000 0x1000).
  - lia.
  - reflexivity.
Defined.

(** X4: [min3] and [max3] yield the least and the greatest of their three
    operands: a bound on all three that is one of them. *)
Theorem min3_max3_extremes (a b c : Z) :
  (Macros.min3 a b c ≤ a ∧ Macros.min3 a b c ≤ b ∧ Macros.min3 a b c ≤ c ∧
   (Macros.min3 a b c = a ∨ Macros.min3 a b c = b ∨ Macros.min3 a b c = c)) ∧
  (a ≤ Macros.max3 a b c ∧ b ≤ Macros.max3 a b c ∧ c ≤ Macros.max3 a b c ∧
   (Macros.max3 a b c = a ∨ Macros.max3 a b c = b ∨ Macros.max3 a b c = c)).
Proof.
  unfold Macros.min3, Macros.max3, Macros.min, Macros.max.
  rewrite !Z.gtb_ltb.
  destruct (Z.ltb_spec a b), (Z.ltb_spec a c), (Z.ltb_spec b c),
    (Z.ltb_spec b a), (Z.ltb_spec c a), (Z.ltb_spec c b); lia.
Qed.

(** X5: the character classes of [isdigit], [islower], [isupper] and
    [isspace] are pairwise disjoint. *)
Theorem character_classes_disjoint (c : Z) :
  Macros.isdigit c && Macros.islower c = false ∧
  Macros.isdigit c && Macros.isupper c = false ∧
  Macros.isdigit c && Macros.isspace c = false ∧
  Macros.islower c && Macros.isupper c = false ∧
  Macros.islower c && Macros.isspace c = false ∧
  Macros.isupper c && Macros.isspace c = false.
Proof.
  unfold Macros.isdigit, Macros.islower, Macros.isupper, Macros.isspace.
  change (Macros.chr "0"%char) with 48. change (Macros.chr "9"%char) with 57.
  change (Macros.chr "a"%char) with 97. change (Macros.chr "z"%char) with 122.
  change (Macros.chr "A"%char) with 65. change (Macros.chr "Z"%char) with 90.
  change (Macros.chr " "%char) with 32. change (Macros.chr "009"%char) with 9.
  change (Macros.chr "010"%char) with 10. change (Macros.chr "013"%char) with 13.
  rewrite !Z.geb_leb.
  repeat split;
    repeat match goal with
      | |- context [?x <=? ?y] => destruct (Z.leb_spec x y)
      | |- context [?x =? ?y] => destruct (Z.eqb_spec x y)
      end; simpl; try reflexivity; lia.
Qed.

Lemma pow2_split (w k : Z) : 0 ≤ k ≤ w → 2 ^ w = 2 ^ (w - k) * 2 ^ k.
Proof. intros Hk. rewrite <- Z.pow_add_r by lia. f_equal. lia. Qed.

(** X6: a count of kilobytes (megabytes) whose size in bytes fits the
    machine word survives the trip to a size and back. *)
Theorem size_round_trip (w kb mb : Z) :
  20 ≤ w → 0 ≤ kb < 2 ^ (w - 10) → 0 ≤ mb < 2 ^ (w - 20) →
  Macros.SIZE2KB (Macros.KB2SIZE w kb) = kb ∧
  Macros.SIZE2MB (Macros.MB2SIZE w mb) = mb.
Proof.
  intros Hw Hkb Hmb.
  unfold Macros.SIZE2KB, Macros.KB2SIZE, Macros.SIZE2MB, Macros.MB2SIZE.
  pose proof (pow2_split w 10 ltac:(lia)) as H10.
  pose proof (pow2_split w 20 ltac:(lia)) as H20.
  rewrite !Z.shiftl_mul_pow2 by lia.
  rewrite !wrap_in_range by nia.
  rewrite !Z.shiftr_div_pow2 by lia.
  split; apply Z.div_mul; lia.
Qed.

Lemma size_round_trip_witness :
  Macros.SIZE2KB (Macros.KB2SIZE 32 640) = 640 ∧
  Macros.SIZE2MB (Macros.MB2SIZE 32 4095) = 4095.
Proof. apply (size_round_trip 32 640 4095); lia. Defined.

(** X7: going from a size to kilobytes (megabytes) and back rounds the
    size down to a multiple of 1024 (of 1048576): nothing is added and
    less than one unit is lost. *)
Theorem size_round_down (w size : Z) :
  0 ≤ size < 2 ^ w →
  (Macros.KB2SIZE w (Macros.SIZE2KB size) ≤ size
     < Macros.KB2SIZE w (Macros.SIZE2KB size) + 1024 ∧
   Macros.KB2SIZE w (Macros.SIZE2KB size) mod 1024 = 0) ∧
  (Macros.MB2SIZE w (Macros.SIZE2MB size) ≤ size
     < Macros.MB2SIZE w (Macros.SIZE2MB size) + 1048576 ∧
   Macros.MB2SIZE w (Macros.SIZE2MB size) mod 1048576 = 0).
Proof.
  intros Hs.
  unfold Macros.SIZE2KB, Macros.KB2SIZE, Macros.SIZE2MB, Macros.MB2SIZE.
  rewrite !Z.shiftl_mul_pow2, !Z.shiftr_div_pow2 by lia.
  change (2 ^ 10) with 1024. change (2 ^ 20) with 1048576.
  pose proof (Z.div_mod size 1024 ltac:(lia)) as Hk.
  pose proof (Z.mod_pos_bound size 1024 ltac:(lia)) as Hkb.
  pose proof (Z.div_mod size 1048576 ltac:(lia)) as Hm.
  pose proof (Z.mod_pos_bound size 1048576 ltac:(lia)) as Hmb.
  assert (0 ≤ size / 1024) by (apply Z.div_pos; lia).
  assert (0 ≤ size / 1048576) by (apply Z.div_pos; lia).
  rewrite !wrap_in_range by lia.
  rewrite !Z.mod_mul by lia. lia.
Qed.

Lemma size_round_down_witness :
  Macros.KB2SIZE 32 (Macros.SIZE2KB 5000) ≤ 5000
    < Macros.KB2SIZE 32 (Macros.SIZE2KB 5000) + 1024.
Proof.
  destruct (size_round_down 32 5000) as ((Hkb & _) & _); [lia |].
  exact Hkb.
Defined.

(** X8: [KB2SIZE] and [MB2SIZE] lose what does not fit the machine word:
    counts that differ by 2^(w-10) kilobytes (2^(w-20) megabytes) give the
    same size, so the first count that does not fit gives size 0. *)
Theorem size_conversion_wraps (w n : Z) :
  20 ≤ w →
  Macros.KB2SIZE w (n + 2 ^ (w - 10)) = Macros.KB2SIZE w n ∧
  Macros.MB2SIZE w (n + 2 ^ (w - 20)) = Macros.MB2SIZE w n.
Proof.
  intros Hw. unfold Macros.KB2SIZE, Macros.MB2SIZE, Macros.wrap.
  rewrite !Z.shiftl_mul_pow2 by lia.
  split.
  - replace ((n + 2 ^ (w - 10)) * 2 ^ 10) with (n * 2 ^ 10 + 1 * 2 ^ w)
      by (rewrite (pow2_split w 10) by lia; ring).
    apply Z_mod_plus_full.
  - replace ((n + 2 ^ (w - 20)) * 2 ^ 20) with (n * 2 ^ 20 + 1 * 2 ^ w)
      by (rewrite (pow2_split w 20) by lia; ring).
    apply Z_mod_plus_full.
Qed.

Lemma size_conversion_wraps_witness :
  Macros.KB2SIZE 32 (0 + 2 ^ (32 - 10)) = Macros.KB2SIZE 32 0 ∧
  Macros.MB2SIZE 32 (0 + 2 ^ (32 - 20)) = Macros.MB2SIZE 32 0.
Proof. apply (size_conversion_wraps 32 0). lia. Defined.

(** X9: [RANDI] never maps two different seeds to the same next seed: the
    generator's step is one-to-one on machine words (its multiplier is
    odd), so no seed is the successor of two. *)
Theorem RANDI_injective (w s1 s2 : Z) :
  0 ≤ w → 0 ≤ s1 < 2 ^ w → 0 ≤ s2 < 2 ^ w →
  s1 ≠ s2 →
  (Macros.RANDI w s1).2 ≠ (Macros.RANDI w s2).2 ∧
  (Macros.RANDI w s1).1 ≠ (Macros.RANDI w s2).1.
Proof.
  intros Hw H1 H2 Hne. unfold Macros.RANDI, Macros.wrap. cbn [fst snd].
  assert ((1103515245 * s1 + 12345) mod 2 ^ w
          ≠ (1103515245 * s2 + 12345) mod 2 ^ w) as Hdiff; [| done].
  intros Heq. apply Hne.
  assert (0 < 2 ^ w) as Hpos by (apply Z.pow_pos_nonneg; lia).
  assert ((2 ^ w | 1103515245 * (s1 - s2))) as Hdiv.
  { apply Z.mod_divide; [lia |].
    replace (1103515245 * (s1 - s2))
      with ((1103515245 * s1 + 12345) - (1103515245 * s2 + 12345)) by ring.
    rewrite Zminus_mod, Heq, Z.sub_diag. apply Z.mod_0_l. lia. }
  apply Z.gauss in Hdiv.
  - destruct Hdiv as [k Hk].
    assert (k = 0) as -> by nia. lia.
  - apply (Z.coprime_pow_l 2 1103515245 w); [lia | reflexivity].
Qed.

Lemma RANDI_injective_witness :
  (Macros.RANDI 32 7).2 ≠ (Macros.RANDI 32 8).2 ∧
  (Macros.RANDI 32 7).1 ≠ (Macros.RANDI 32 8).1.
Proof. apply (RANDI_injective 32 7 8); lia. Defined.

(** ** hdaudio.c *)

(** Bring the tests of a staged predicate into the form the function's
    own tests have. *)
Ltac split_tests :=
  repeat match goal with
    | H : _ && _ = true |- _ => apply andb_true_iff in H as [? ?]
    | H : negb _ = true |- _ => apply negb_true_iff in H
    | H : negb _ = false |- _ => apply negb_false_iff in H
    | H : (_ =? _)%Z = true |- _ => apply Z.eqb_eq in H
    end.

Ltac hda_norm := repeat (progress hda_eval).

Ltac hda_prune :=
  try congruence;
  try (repeat match goal with
         | H : negb _ = true |- _ => apply negb_true_iff in H
         | H : negb _ = false |- _ => apply negb_false_iff in H
         end; congruence).

Ltac hda_cases := repeat (hda_norm; try hda_branch); hda_prune.

Ltac use_tests :=
  repeat match goal with
    | H : negb _ = true |- _ => apply negb_true_iff in H
    | H : negb _ = false |- _ => apply negb_false_iff in H
    end;
  repeat match goal with
    | H : ?b = true |- context [?b] => rewrite H
    | H : ?b = false |- context [?b] => rewrite H
    end;
  rewrite ?Z.eqb_refl; cbn [andb negb].

(** What a call of [hda_dev_add] comes to, by how far its callees let it
    get. *)
Lemma hda_dev_add_outcome {E : errno_h} {R : hda_regs_h}
    (w : Z) (env : add_env) (dev : Z) (st : drv_state) :
  let r := hda_dev_add w env dev st in
  (if callees_succeed env
   then r.1 = EOK ∧
        last (events r.2)
          = Some (Ev_ddf_fun_add_to_category (env_fun_create env) "virtual") ∧
        fun_a (hda_of dev r.2) = env_fun_create env
   else last (events r.2) = Some failing_hda_dev_add ∧
        existsb is_add_to_category (added (events st) (events r.2)) = false) ∧
  (if reaches_registration env
   then registrations (added (events st) (events r.2))
          = [(dev, default 0 (irqs (env_hw_res env) !! 0%nat),
              hdaudio_irq_code r.2)] ∧
        count_stores (added (events st) (events r.2)) = 3%nat
   else registrations (added (events st) (events r.2)) = [] ∧
        no_store (added (events st) (events r.2)) = true ∧
        hdaudio_irq_pio_ranges r.2 = hdaudio_irq_pio_ranges st ∧
        hdaudio_irq_commands r.2 = hdaudio_irq_commands st).
Proof.
  destruct st as [rs cs dd ev].
  destruct env as [al ps hrc [mr iq] prc pregs rrc ci cf fc fb].
  unfold callees_succeed, reaches_bind, reaches_registration, resources_ok,
    added, hda_of.
  cbv zeta.
  repeat (hda_norm; try hda_branch).
  all: use_tests.
  all: rewrite <- ?app_assoc, ?drop_app_length; cbn [app].
  all: rewrite ?andb_false_r; cbn [andb negb].
  all: repeat split; try reflexivity.
  all: try (rewrite last_app; reflexivity).
  all: rewrite ?lookup_insert_eq; reflexivity.
Qed.

(** X10: when everything up to [pio_enable] has succeeded but the device
    does not report exactly one interrupt, [hda_dev_add] takes its error
    exit with [rc] still holding [EOK]: it logs the failure, registers
    nothing, leaves the global arrays alone, and returns [EOK]. *)
Theorem hda_dev_add_wrong_irq_count {E : errno_h} {R : hda_regs_h}
    (w : Z) (env : add_env) (dev : Z) (st : drv_state) :
  resources_ok env = true →
  length (irqs (env_hw_res env)) ≠ 1%nat →
  (hda_dev_add w env dev st).1 = EOK ∧
  last (events (hda_dev_add w env dev st).2) = Some failing_hda_dev_add ∧
  no_register (added (events st) (events (hda_dev_add w env dev st).2)) = true ∧
  no_store (added (events st) (events (hda_dev_add w env dev st).2)) = true.
Proof.
  intros Hok Hirq.
  destruct st as [rs cs dd ev].
  destruct env as [al ps hrc [mr iq] prc pregs rrc ci cf fc fb].
  unfold resources_ok in Hok.
  cbn [env_dev_data_alloc env_parent_sess env_hw_res_rc env_hw_res
       env_pio_enable_rc mem_ranges irqs] in *.
  destruct mr as [|[abs sz] [|r1 mr]];
    cbn [length Nat.eqb lookup list_lookup default id RNGSZ] in Hok;
    rewrite ?andb_false_r in Hok; try discriminate Hok.
  split_tests. subst al hrc prc.
  destruct iq as [|i0 [|i1 iq]]; [| done |].
  all: unfold added.
  all: hda_cases.
  all: rewrite <- ?app_assoc, ?drop_app_length; cbn [app].
  all: repeat split; try reflexivity.
  all: rewrite last_app; reflexivity.
Qed.

Lemma hda_dev_add_wrong_irq_count_witness :
  let r := hda_dev_add (E := example_errno) (R := example_hda_regs)
             32 example_env_two_irqs 1 drv_init in
  r.1 = 0 ∧ last (events r.2) = Some failing_hda_dev_add.
Proof.
  cbv zeta.
  destruct (hda_dev_add_wrong_irq_count (E := example_errno)
              (R := example_hda_regs) 32 example_env_two_irqs 1 drv_init)
    as (Hrc & Hlast & _).
  - reflexivity.
  - simpl. lia.
  - split; [exact Hrc | exact Hlast].
Defined.

(** X11: [hda_dev_add] stores into the global arrays and calls
    [register_interrupt_handler] exactly when all its callees up to
    [pio_enable] succeed and the device reports exactly one interrupt.
    Then it makes exactly three stores and one registration, of the code
    as the arrays hold it at return, for that interrupt, whether or not
    registration and the later steps succeed; otherwise it makes no store
    and no registration and the arrays are as before. *)
Theorem hda_dev_add_registration_condition {E : errno_h} {R : hda_regs_h}
    (w : Z) (env : add_env) (dev : Z) (st : drv_state) :
  let r := hda_dev_add w env dev st in
  if reaches_registration env
  then registrations (added (events st) (events r.2))
         = [(dev, default 0 (irqs (env_hw_res env) !! 0%nat),
             hdaudio_irq_code r.2)] ∧
       count_stores (added (events st) (events r.2)) = 3%nat
  else registrations (added (events st) (events r.2)) = [] ∧
       no_store (added (events st) (events r.2)) = true ∧
       hdaudio_irq_pio_ranges r.2 = hdaudio_irq_pio_ranges st ∧
       hdaudio_irq_commands r.2 = hdaudio_irq_commands st.
Proof. apply (hda_dev_add_outcome w env dev st). Qed.

(** X12: [hda_dev_add] ends in one of two ways.  When every callee
    succeeds it returns [EOK], its last act is to add the function to the
    category "virtual", and the soft state holds that function; in every
    other case the function is never added to a category and the last
    thing done is to log "Failing hda_dev_add()". *)
Theorem hda_dev_add_completion {E : errno_h} {R : hda_regs_h}
    (w : Z) (env : add_env) (dev : Z) (st : drv_state) :
  let r := hda_dev_add w env dev st in
  if callees_succeed env
  then r.1 = EOK ∧
       last (events r.2)
         = Some (Ev_ddf_fun_add_to_category (env_fun_create env) "virtual") ∧
       fun_a (hda_of dev r.2) = env_fun_create env
  else last (events r.2) = Some failing_hda_dev_add ∧
       existsb is_add_to_category (added (events st) (events r.2)) = false.
Proof. apply (hda_dev_add_outcome w env dev st). Qed.

(** X13: when [ddf_fun_bind] fails, [hda_dev_add] destroys the function
    it created and returns the code of [ddf_fun_bind], but the soft state
    keeps pointing at the destroyed function: [hda->fun_a] is not reset. *)
Theorem hda_dev_add_bind_failure {E : errno_h} {R : hda_regs_h}
    (w : Z) (env : add_env) (dev : Z) (st : drv_state) :
  reaches_bind env = true →
  env_fun_bind_rc env ≠ EOK →
  let r := hda_dev_add w env dev st in
  r.1 = env_fun_bind_rc env ∧
  Ev_ddf_fun_destroy (env_fun_create env)
    ∈ added (events st) (events r.2) ∧
  fun_a (hda_of dev r.2) = env_fun_create env ∧
  env_fun_create env ≠ NULL.
Proof.
  intros Hok Hbind.
  destruct st as [rs cs dd ev].
  destruct env as [al ps hrc [mr iq] prc pregs rrc ci cf fc fb].
  unfold reaches_bind, reaches_registration, resources_ok in Hok.
  cbn [env_dev_data_alloc env_parent_sess env_hw_res_rc env_hw_res
       env_pio_enable_rc env_register_rc env_hda_ctl_init env_fun_create
       env_fun_bind_rc mem_ranges irqs] in *.
  destruct mr as [|[abs sz] [|r1 mr]];
    cbn [length Nat.eqb lookup list_lookup default id RNGSZ] in Hok;
    rewrite ?andb_false_r in Hok; try discriminate Hok.
  destruct iq as [|i0 [|i1 iq]];
    cbn [length Nat.eqb] in Hok;
    rewrite ?andb_false_r in Hok; try discriminate Hok.
  split_tests. subst al hrc prc rrc.
  apply Z.eqb_neq in Hbind.
  unfold added, hda_of. cbv zeta.
  hda_cases.
  all: rewrite <- ?app_assoc, ?drop_app_length; cbn [app].
  all: rewrite ?lookup_insert_eq.
  all: split; [reflexivity |]; split; [set_solver |].
  all: split; [reflexivity |]; by apply Z.eqb_neq.
Qed.

Lemma hda_dev_add_bind_failure_witness :
  let r := hda_dev_add (E := example_errno) (R := example_hda_regs)
             32 example_env_bind_fails 1 drv_init in
  r.1 = -2 ∧ fun_a (hda_of 1 r.2) = 0x3000.
Proof.
  cbv zeta.
  destruct (hda_dev_add_bind_failure (E := example_errno)
              (R := example_hda_regs) 32 example_env_bind_fails 1 drv_init)
    as (Hrc & _ & Hfun & _).
  - reflexivity.
  - vm_compute. discriminate.
  - split; [exact Hrc | exact Hfun].
Defined.

(** X14: whatever the driver has done before, the register that the
    registered code reads and writes lies inside the one range the code
    declares, as long as the offset of [rirbsts] in the register block is
    below the declared 8192 bytes and the declared range does not wrap
    around the address space. *)
Theorem registered_accesses_in_declared_range {E : errno_h} {R : hda_regs_h}
    (w : Z) (ops : list op) (env : add_env) (dev : Z)
    (d irq : Z) (code : irq_code_t) (c : irq_cmd_t) :
  0 ≤ w →
  0 ≤ offsetof_rirbsts < 8192 →
  (∀ r0 : addr_range_t,
     r0 ∈ mem_ranges (env_hw_res env) →
     to_uintptr w (RNGABS r0) + 8192 ≤ 2 ^ w) →
  (d, irq, code) ∈
    registrations
      (added (events (run_ops w ops drv_init))
         (events (hda_dev_add w env dev (run_ops w ops drv_init)).2)) →
  c ∈ cmds code →
  cmd c = CMD_PIO_READ_8 ∨ cmd c = CMD_PIO_WRITE_8 →
  ∃ r : irq_pio_range_t,
    r ∈ ranges code ∧ base r ≤ addr c ∧ addr c + 1 ≤ base r + size r.
Proof.
  intros Hw Hoff Hnowrap Hin Hc Hkind.
  destruct (hda_dev_add_registered_code w env dev _ d irq code
              (run_ops_patched w ops _ arrays_patched_init) Hin)
    as (r0 & Hmem & _ & ->).
  assert (to_uintptr w (RNGABS r0) + 8192 ≤ 2 ^ w) as Htop
    by (apply Hnowrap; rewrite Hmem; apply list_elem_of_here).
  assert (0 ≤ to_uintptr w (RNGABS r0)) as Hlow
    by (apply Z.mod_pos_bound, Z.pow_pos_nonneg; lia).
  assert (field_rirbsts w (to_uintptr w (RNGABS r0))
          = to_uintptr w (RNGABS r0) + offsetof_rirbsts) as Hfield
    by (unfold field_rirbsts at 1, to_uintptr at 1; apply Z.mod_small; lia).
  cbn [cmds ranges] in *. unfold patched_ranges, patched_commands in *.
  eexists. split; [apply list_elem_of_here |]. cbn [base size].
  repeat (apply elem_of_cons in Hc as [-> | Hc]);
    [| | | | | by apply elem_of_nil in Hc]; cbn [addr cmd] in *;
    try lia; destruct Hkind; discriminate.
Qed.

Lemma registered_accesses_in_declared_range_witness :
  let st0 := run_ops (E := example_errno) (R := example_hda_regs) 32
               [Op_dev_add (example_env 0xfea00000 10) 2] drv_init in
  let st1 := (hda_dev_add (E := example_errno) (R := example_hda_regs)
                32 (example_env 0xfeb00000 11) 1 st0).2 in
  ∃ r : irq_pio_range_t,
    r ∈ ranges (hdaudio_irq_code st1) ∧
    base r ≤ 0xfeb0005d ∧ 0xfeb0005d + 1 ≤ base r + size r.
Proof.
  cbv zeta.
  apply (registered_accesses_in_declared_range (E := example_errno)
           (R := example_hda_regs) 32
           [Op_dev_add (example_env 0xfea00000 10) 2]
           (example_env 0xfeb00000 11) 1 1 11
           (hdaudio_irq_code
              (hda_dev_add (E := example_errno) (R := example_hda_regs)
                 32 (example_env 0xfeb00000 11) 1
                 (run_ops (E := example_errno) (R := example_hda_regs) 32
                    [Op_dev_add (example_env 0xfea00000 10) 2]
                    drv_init)).2)
           (mk_irq_cmd CMD_PIO_READ_8 0xfeb0005d 0 0 2)).
  - lia.
  - cbn. lia.
  - intros r0 Hr0. apply list_elem_of_singleton in Hr0 as ->.
    vm_compute. discriminate.
  - vm_compute. left.
  - vm_compute. left.
  - left. reflexivity.
Defined.

(** X15: for a device that has soft state, [hda_dev_remove] does
    nothing if the device has no function; otherwise it takes the
    function offline, and unbinds it only if that succeeded.  It returns
    [EOK] exactly when there was no function or both calls succeeded, and
    it never changes the soft state.  (The result is the left injection:
    the function has no error label.) *)
Theorem hda_dev_remove_order {E : errno_h} {R : hda_regs_h}
    (rc_offline rc_unbind dev : Z) (st : drv_state) :
  is_Some (dev_data st !! dev) →
  let r := hda_dev_remove rc_offline rc_unbind dev st in
  let new := added (events st) (events r.2) in
  (existsb is_offline new = negb (fun_a (hda_of dev st) =? NULL)) ∧
  (existsb is_unbind new
     = negb (fun_a (hda_of dev st) =? NULL) && (rc_offline =? EOK)) ∧
  (r.1 = inl EOK ↔
   fun_a (hda_of dev st) = NULL ∨ (rc_offline = EOK ∧ rc_unbind = EOK)) ∧
  dev_data r.2 = dev_data st.
Proof.
  intros _. destruct st as [rs cs dd ev].
  unfold hda_dev_remove, added, hda_of.
  cbv beta iota zeta delta
    [mbind mret hda_bind hda_ret ret ddf_msg emit get_hda hda_of
     fst snd hdaudio_irq_pio_ranges hdaudio_irq_commands dev_data events].
  destruct (fun_a (default hda_zero (dd !! dev)) =? NULL) eqn:Hf;
    [| destruct (rc_offline =? EOK) eqn:Ho;
       [destruct (rc_unbind =? EOK) eqn:Hu |]].
  all: cbn [negb andb fst snd events dev_data].
  all: rewrite <- ?app_assoc, ?drop_app_length; cbn [app].
  all: repeat split; try reflexivity.
  all: rewrite ?Z.eqb_eq, ?Z.eqb_neq in *.
  all: try tauto; try lia; try (intros; congruence).
Qed.

Lemma hda_dev_remove_order_witness :
  let r := hda_dev_remove (E := example_errno) 0 0 1
             example_state_with_function in
  existsb is_unbind (added [] (events r.2)) = true ∧ r.1 = inl 0.
Proof.
  cbv zeta.
  destruct (hda_dev_remove_order (E := example_errno)
              (R := example_hda_regs) 0 0 1 example_state_with_function)
    as (_ & Hunbind & Hrc & _).
  - vm_compute. eexists. reflexivity.
  - split; [exact Hunbind |]. apply Hrc. right. split; reflexivity.
Defined.

(** X16: for a device that has soft state, [hda_dev_gone] never takes the
    function offline: if the device has a function it only unbinds it,
    returning [EOK] exactly when there was no function or the unbinding
    succeeded; the soft state is unchanged. *)
Theorem hda_dev_gone_never_offlines {E : errno_h} {R : hda_regs_h}
    (rc_unbind dev : Z) (st : drv_state) :
  is_Some (dev_data st !! dev) →
  let r := hda_dev_gone rc_unbind dev st in
  let new := added (events st) (events r.2) in
  existsb is_offline new = false ∧
  existsb is_unbind new = negb (fun_a (hda_of dev st) =? NULL) ∧
  (r.1 = inl EOK ↔ fun_a (hda_of dev st) = NULL ∨ rc_unbind = EOK) ∧
  dev_data r.2 = dev_data st.
Proof.
  intros _. destruct st as [rs cs dd ev].
  unfold hda_dev_gone, added, hda_of.
  cbv beta iota zeta delta
    [mbind mret hda_bind hda_ret ret ddf_msg emit get_hda hda_of
     fst snd hdaudio_irq_pio_ranges hdaudio_irq_commands dev_data events].
  destruct (fun_a (default hda_zero (dd !! dev)) =? NULL) eqn:Hf;
    [| destruct (rc_unbind =? EOK) eqn:Hu].
  all: cbn [negb andb fst snd events dev_data].
  all: rewrite <- ?app_assoc, ?drop_app_length; cbn [app].
  all: repeat split; try reflexivity.
  all: rewrite ?Z.eqb_eq, ?Z.eqb_neq in *.
  all: try tauto; try lia; try (intros; congruence).
Qed.

Lemma hda_dev_gone_never_offlines_witness :
  let r := hda_dev_gone (E := example_errno) 0 1
             example_state_with_function in
  existsb is_offline (added [] (events r.2)) = false ∧
  existsb is_unbind (added [] (events r.2)) = true.
Proof.
  cbv zeta.
  destruct (hda_dev_gone_never_offlines (E := example_errno)
              (R := example_hda_regs) 0 1 example_state_with_function)
    as (Hoff & Hunbind & _).
  - vm_compute. eexists. reflexivity.
  - split; [exact Hoff | exact Hunbind].
Defined.

(** X17: for a device that has soft state, [hda_dev_remove] does not
    clear [hda->fun_a], so it is not idempotent: called a second time for
    the same device it makes the same calls again, on the same
    function. *)
Theorem hda_dev_remove_repeats {E : errno_h} {R : hda_regs_h}
    (rc_offline rc_unbind dev : Z) (st : drv_state) :
  is_Some (dev_data st !! dev) →
  let st1 := (hda_dev_remove rc_offline rc_unbind dev st).2 in
  let st2 := (hda_dev_remove rc_offline rc_unbind dev st1).2 in
  hda_of dev st1 = hda_of dev st ∧
  added (events st1) (events st2) = added (events st) (events st1).
Proof.
  intros _. destruct st as [rs cs dd ev].
  unfold hda_dev_remove, added, hda_of.
  cbv beta iota zeta delta
    [mbind mret hda_bind hda_ret ret ddf_msg emit get_hda hda_of
     fst snd hdaudio_irq_pio_ranges hdaudio_irq_commands dev_data events].
  destruct (fun_a (default hda_zero (dd !! dev)) =? NULL) eqn:Hf;
    [| destruct (rc_offline =? EOK) eqn:Ho;
       [destruct (rc_unbind =? EOK) eqn:Hu |]].
  all: cbn [negb andb fst snd events dev_data].
  all: rewrite ?Hf; cbn [negb andb fst snd events dev_data].
  all: split; [reflexivity |].
  all: rewrite <- ?app_assoc; cbn [app].
  all: rewrite length_app, drop_app_add, drop_app_length; reflexivity.
Qed.

Lemma hda_dev_remove_repeats_witness :
  let st1 := (hda_dev_remove (E := example_errno) 0 0 1
                example_state_with_function).2 in
  let st2 := (hda_dev_remove (E := example_errno) 0 0 1 st1).2 in
  hda_of 1 st1 = hda_of 1 example_state_with_function ∧
  added (events st1) (events st2) = added [] (events st1).
Proof.
  cbv zeta.
  apply (hda_dev_remove_repeats (E := example_errno)
           (R := example_hda_regs) 0 0 1 example_state_with_function).
  vm_compute. eexists. reflexivity.
Defined.

(** ** rootpc.c *)

(** X18: [rootpc_add_fun] returns true exactly when [ddf_fun_create],
    [create_match_id] and [ddf_fun_bind] all succeed.  A node that was
    created is destroyed exactly once when the function fails and never
    when it succeeds; the node is bound at most once, and only after its
    match id has been added; the message "failed to add function" is the
    last thing printed exactly when the function fails. *)
Theorem rootpc_add_fun_result {E : errno_h}
    (env : Rootpc.add_env) (dev : Z) (name str_match_id : string)
    (tr : list Rootpc.event) :
  let r := Rootpc.rootpc_add_fun env dev name str_match_id tr in
  let new := drop (length tr) r.2 in
  r.1 = negb (Rootpc.env_ddf_fun_create env =? NULL) &&
        negb (Rootpc.env_create_match_id env =? NULL) &&
        (Rootpc.env_ddf_fun_bind env =? EOK) ∧
  Rootpc.count Rootpc.is_destroy new
    = (if negb (Rootpc.env_ddf_fun_create env =? NULL) && negb r.1
       then 1%nat else 0%nat) ∧
  Rootpc.count Rootpc.is_bind new
    = (if negb (Rootpc.env_ddf_fun_create env =? NULL) &&
          negb (Rootpc.env_create_match_id env =? NULL)
       then 1%nat else 0%nat) ∧
  Rootpc.count Rootpc.is_add_match_id new = Rootpc.count Rootpc.is_bind new ∧
  Rootpc.binds_follow_match_id false new = true ∧
  (last r.2 = Some (Rootpc.Ev_printf
                      "rootpc: failed to add function '%s'.\n" [name])
   ↔ r.1 = false).
Proof.
  destruct env as [fnode mid brc].
  rootpc_eval.
  destruct (fnode =? NULL) eqn:Hf; rootpc_eval.
  2: destruct (mid =? NULL) eqn:Hm; rootpc_eval.
  3: destruct (brc =? EOK) eqn:Hb; rootpc_eval.
  all: rewrite <- ?app_assoc, ?drop_app_length; cbn [app].
  all: rewrite ?last_app; cbn [last negb andb].
  all: repeat split; try reflexivity; try (intros; discriminate).
Qed.

(** ** kbd.c *)

(** X19: scan codes handed to [kbd_arch_process] one after the other
    reach the key buffer in the same order, each once, none dropped. *)
Theorem kbd_scan_codes_in_order (codes : list Z) (tr : list Kbd.event) :
  foldl (λ t c, (Kbd.kbd_arch_process c t).2) tr codes
    = tr ++ (Kbd.Ev_key_buffer_push <$> codes).
Proof.
  revert tr. induction codes as [|c codes IH]; intros tr; simpl.
  - by rewrite app_nil_r.
  - rewrite IH. unfold Kbd.kbd_arch_process. simpl.
    by rewrite <- app_assoc.
Qed.

(** ** iface.c *)

Import Usbhost.

(** X20: [find_by_address], [register_endpoint] and
    [unregister_endpoint] stop at an assertion, having called nothing,
    when the function pointer is null or no host controller driver
    belongs to it; otherwise each makes exactly one call into the host
    controller driver and returns that call's code unchanged. *)
Theorem iface_assertions (off : Z) (env : iface_env) (fun_ : Z)
    (addr endp handle transfer_type max_packet_size interval : Z)
    (direction : usb_direction_t) (tr : list call) :
  let r1 := find_by_address off env fun_ addr handle tr in
  let r2 := register_endpoint env fun_ addr endp transfer_type direction
              max_packet_size interval tr in
  let r3 := unregister_endpoint env fun_ addr endp direction tr in
  if (fun_ =? NULL) || (env_hcd env =? NULL)
  then r1 = (Assertion_failed, tr) ∧ r2 = (Assertion_failed, tr) ∧
       r3 = (Assertion_failed, tr)
  else r1.1 = Returned (env_rc env) ∧ r2.1 = Returned (env_rc env) ∧
       r3.1 = Returned (env_rc env) ∧
       length (filter (λ c, is_hcd_call c = true) (drop (length tr) r1.2)) = 1%nat ∧
       length (filter (λ c, is_hcd_call c = true) (drop (length tr) r2.2)) = 1%nat ∧
       length (filter (λ c, is_hcd_call c = true) (drop (length tr) r3.2)) = 1%nat.
Proof.
  unfold find_by_address, register_endpoint, unregister_endpoint.
  destruct (fun_ =? NULL); [done |].
  destruct (env_hcd env =? NULL); [done |].
  cbn [orb fst snd]. rewrite !drop_app_length. done.
Qed.

(** X21: [register_endpoint] uses [interval] in its debug message only:
    the code it returns and its call into the host controller driver are
    the same for any two values of it, and that call adds the endpoint
    with the maximum packet size as its bandwidth size too. *)
Theorem register_endpoint_ignores_interval (env : iface_env) (fun_ : Z)
    (addr endp transfer_type max_packet_size interval interval' : Z)
    (direction : usb_direction_t) (tr : list call) :
  let r := register_endpoint env fun_ addr endp transfer_type direction
             max_packet_size interval tr in
  let r' := register_endpoint env fun_ addr endp transfer_type direction
              max_packet_size interval' tr in
  r.1 = r'.1 ∧
  filter (λ c, is_hcd_call c = true) (drop (length tr) r.2)
    = filter (λ c, is_hcd_call c = true) (drop (length tr) r'.2) ∧
  if (fun_ =? NULL) || (env_hcd env =? NULL)
  then r.2 = tr
  else filter (λ c, is_hcd_call c = true) (drop (length tr) r.2)
         = [Call_hcd_add_ep (env_hcd env) (mk_usb_target addr endp) direction
              transfer_type max_packet_size max_packet_size] ∧
       drop (length tr) r.2 !! 0%nat
         = Some (Call_usb_log_debug
                   "Register endpoint %d:%d %s-%s %zuB %ums.\n"
                   [Arg_int addr; Arg_int endp;
                    Arg_usb_str_transfer_type transfer_type;
                    Arg_usb_str_direction direction;
                    Arg_int max_packet_size; Arg_int interval]).
Proof.
  unfold register_endpoint.
  destruct (fun_ =? NULL); [done |].
  destruct (env_hcd env =? NULL); [done |].
  cbn [orb fst snd]. rewrite !drop_app_length. done.
Qed.
